(** * Referral e-mail sender: Composer (app/page.tsx) and Dispatcher
      (app/api/send-email/route.ts)

    A shallow embedding of the validation, request-parsing and dispatch
    code of the repository, with the properties of its specification
    stated and proved over it. *)

From Stdlib Require Import NArith Ascii String.
From stdpp Require Import base option list strings gmap.

Local Open Scope N_scope.

(** ** JavaScript strings

    A JavaScript string is a sequence of UTF-16 code units.  String
    literals of the source are written [js "..."]; every character of a
    literal used here is ASCII, so one character is one code unit. *)

Abbreviation jsstring := (list N).

Definition js (s : string) : jsstring :=
  N_of_ascii <$> list_ascii_of_string s.

(** [WhiteSpace] and [LineTerminator] of ECMAScript, the code units that
    [String.prototype.trim] strips. *)
Definition isWhiteSpace (c : N) : bool :=
  (c =? 0x0009) || (c =? 0x000A) || (c =? 0x000B) || (c =? 0x000C)
  || (c =? 0x000D) || (c =? 0x0020) || (c =? 0x00A0) || (c =? 0x1680)
  || ((0x2000 <=? c) && (c <=? 0x200A))
  || (c =? 0x2028) || (c =? 0x2029) || (c =? 0x202F) || (c =? 0x205F)
  || (c =? 0x3000) || (c =? 0xFEFF).

Fixpoint trimStart (s : jsstring) : jsstring :=
  match s with
  | [] => []
  | c :: s' => if isWhiteSpace c then trimStart s' else s
  end.

Definition trimEnd (s : jsstring) : jsstring :=
  reverse (trimStart (reverse s)).

(** [s.trim()] *)
Definition trim (s : jsstring) : jsstring := trimEnd (trimStart s).

(** [s.split(",")] for a one-unit separator: the pieces between the
    separators, at least one piece (the empty string splits to [[""]]). *)
Fixpoint split (sep : N) (s : jsstring) : list jsstring :=
  match s with
  | [] => [[]]
  | c :: s' =>
      if c =? sep then [] :: split sep s'
      else match split sep s' with
           | p :: ps => (c :: p) :: ps
           | [] => [[c]]
           end
  end.

(** [parts.join(sep)] *)
Fixpoint join (sep : jsstring) (parts : list jsstring) : jsstring :=
  match parts with
  | [] => []
  | [p] => p
  | p :: ps => p ++ sep ++ join sep ps
  end.

(** [Boolean(s)] on a string: the empty string is the only falsy one. *)
Definition truthy (s : jsstring) : bool :=
  match s with [] => false | _ => true end.

(** ** Regular expressions

    The fragment of the JavaScript pattern language that the e-mail
    pattern uses: literal characters, character classes, sequencing,
    [*], [+] and [{n,}].  [Eps] and [Alt] are there for the
    derivatives. *)

Inductive ClassItem : Type :=
| CChar (c : N)
| CRange (lo hi : N).

Definition in_item (c : N) (i : ClassItem) : bool :=
  match i with
  | CChar d => c =? d
  | CRange lo hi => (lo <=? c) && (c <=? hi)
  end.

Definition in_class (items : list ClassItem) (c : N) : bool :=
  existsb (in_item c) items.

Inductive regex : Type :=
| Eps
| Class (items : list ClassItem)
| Seq (r1 r2 : regex)
| Alt (r1 r2 : regex)
| Star (r : regex).

Definition Void : regex := Class [].
Definition Lit (c : N) : regex := Class [CChar c].
(** [r+] *)
Definition Plus (r : regex) : regex := Seq r (Star r).
(** [r{n,}] *)
Fixpoint AtLeast (n : nat) (r : regex) : regex :=
  match n with
  | O => Star r
  | S n' => Seq r (AtLeast n' r)
  end.

(** The language of a pattern. *)
Inductive matches : regex → jsstring → Prop :=
| MEps : matches Eps []
| MClass items c : in_class items c = true → matches (Class items) [c]
| MSeq r1 r2 s1 s2 :
    matches r1 s1 → matches r2 s2 → matches (Seq r1 r2) (s1 ++ s2)
| MAltL r1 r2 s : matches r1 s → matches (Alt r1 r2) s
| MAltR r1 r2 s : matches r2 s → matches (Alt r1 r2) s
| MStarNil r : matches (Star r) []
| MStarApp r s1 s2 :
    matches r s1 → matches (Star r) s2 → matches (Star r) (s1 ++ s2).

(** Matching by derivatives. *)
Fixpoint nullable (r : regex) : bool :=
  match r with
  | Eps => true
  | Class _ => false
  | Seq r1 r2 => nullable r1 && nullable r2
  | Alt r1 r2 => nullable r1 || nullable r2
  | Star _ => true
  end.

Fixpoint deriv (c : N) (r : regex) : regex :=
  match r with
  | Eps => Void
  | Class items => if in_class items c then Eps else Void
  | Seq r1 r2 =>
      if nullable r1 then Alt (Seq (deriv c r1) r2) (deriv c r2)
      else Seq (deriv c r1) r2
  | Alt r1 r2 => Alt (deriv c r1) (deriv c r2)
  | Star r1 => Seq (deriv c r1) (Star r1)
  end.

(** [/^r$/.test(s)]: the whole of [s] is in the language of [r]. *)
Fixpoint test (r : regex) (s : jsstring) : bool :=
  match s with
  | [] => nullable r
  | c :: s' => test (deriv c r) s'
  end.

(** ** The e-mail predicate (both files define the same function)

<<
  /^(?:[a-zA-Z0-9_'^&+\-])+(?:\.(?:[a-zA-Z0-9_'^&+\-])+)*@(?:[a-zA-Z0-9-]+\.)+[a-zA-Z]{2,}$/
>> *)

Definition ch (s : string) : N :=
  match s with
  | String a _ => N_of_ascii a
  | EmptyString => 0
  end.

(** [[a-zA-Z0-9_'^&+\-]] *)
Definition localClass : regex :=
  Class [CRange (ch "a") (ch "z"); CRange (ch "A") (ch "Z");
         CRange (ch "0") (ch "9"); CChar (ch "_"); CChar (ch "'");
         CChar (ch "^"); CChar (ch "&"); CChar (ch "+"); CChar (ch "-")].

(** [[a-zA-Z0-9-]] *)
Definition domainClass : regex :=
  Class [CRange (ch "a") (ch "z"); CRange (ch "A") (ch "Z");
         CRange (ch "0") (ch "9"); CChar (ch "-")].

(** [[a-zA-Z]] *)
Definition alphaClass : regex :=
  Class [CRange (ch "a") (ch "z"); CRange (ch "A") (ch "Z")].

Definition emailPattern : regex :=
  Seq (Plus localClass)
   (Seq (Star (Seq (Lit (ch ".")) (Plus localClass)))
     (Seq (Lit (ch "@"))
       (Seq (Plus (Seq (Plus domainClass) (Lit (ch "."))))
            (AtLeast 2 alphaClass)))).

Definition isValidEmail (email : jsstring) : bool :=
  test emailPattern (trim email).

(** ** The address grammar, as the specification words it

    [local@domain.tld]: the local part is one or more dot-separated runs
    of characters from [[A-Za-z0-9_'^&+-]]; the domain is one or more
    dot-separated labels followed by a final label of at least two
    letters.  A label is a non-empty run of letters, digits and
    hyphens. *)

Definition isLetter (c : N) : bool :=
  ((ch "a" <=? c) && (c <=? ch "z")) || ((ch "A" <=? c) && (c <=? ch "Z")).

Definition isDigit (c : N) : bool := (ch "0" <=? c) && (c <=? ch "9").

Definition specLocalChar (c : N) : bool :=
  isLetter c || isDigit c || bool_decide (c ∈ js "_'^&+-").

Definition specLabelChar (c : N) : bool :=
  isLetter c || isDigit c || (c =? ch "-").

(** A non-empty run of characters that satisfy [P]. *)
Definition run (P : N → bool) (s : jsstring) : Prop :=
  s ≠ [] ∧ Forall (λ c, P c = true) s.

Definition specAddress (s : jsstring) : Prop :=
  ∃ (runs labels : list jsstring) (tld : jsstring),
    runs ≠ [] ∧ Forall (run specLocalChar) runs ∧
    labels ≠ [] ∧ Forall (run specLabelChar) labels ∧
    (2 ≤ length tld)%nat ∧ Forall (λ c, isLetter c = true) tld ∧
    s = join (js ".") runs ++ js "@" ++ join (js ".") labels ++ js "." ++ tld.

(** ** More of the JavaScript library *)

(** [hay.startsWith(needle)] and [hay.includes(needle)] on strings. *)
Fixpoint startsWith (hay needle : jsstring) : bool :=
  match needle, hay with
  | [], _ => true
  | _ :: _, [] => false
  | a :: needle', b :: hay' => (a =? b) && startsWith hay' needle'
  end.

Fixpoint includes (hay needle : jsstring) : bool :=
  startsWith hay needle
  || match hay with
     | [] => false
     | _ :: hay' => includes hay' needle
     end.

(** Lower-casing of one ASCII code unit. *)
Definition lowerAscii (c : N) : N :=
  if (ch "A" <=? c) && (c <=? ch "Z") then c + 32 else c.

Definition isAscii (s : jsstring) : Prop := Forall (λ c, c < 128) s.

(** A value that was thrown, or with which a promise was rejected: the
    handlers of both files only ask whether it is an [Error], and read
    its [message] if so. *)
Inductive Thrown : Type :=
| ThrownError (message : jsstring)
| ThrownOther.

(** [File] and [FormData] of the Web API.  A form is its list of entries
    in insertion order. *)
Record File : Type := { name : jsstring; type : jsstring; bytes : list N }.

Inductive FormDataEntryValue : Type :=
| EString (s : jsstring)
| EFile (f : File).

Definition FormData : Type := list (jsstring * FormDataEntryValue).

Definition keyIs (k : jsstring) (e : jsstring * FormDataEntryValue) : bool :=
  bool_decide (e.1 = k).

(** [form.get(k)]: the first value of the key, or [null]. *)
Definition form_get (k : jsstring) (form : FormData) : option FormDataEntryValue :=
  snd <$> head (List.filter (keyIs k) form).

(** [form.getAll(k)] *)
Definition form_getAll (k : jsstring) (form : FormData) : list FormDataEntryValue :=
  snd <$> List.filter (keyIs k) form.

(** [form.append(k, v)] *)
Definition form_append (k : jsstring) (v : FormDataEntryValue) (form : FormData)
  : FormData :=
  form ++ [(k, v)].

(** [form.set(k, v)]: the first entry of the key takes the value and the
    others go; a new key is appended. *)
Fixpoint form_set (k : jsstring) (v : FormDataEntryValue) (form : FormData)
  : FormData :=
  match form with
  | [] => [(k, v)]
  | e :: form' =>
      if keyIs k e then (k, v) :: List.filter (λ e', negb (keyIs k e')) form'
      else e :: form_set k v form'
  end.

(** The values that [req.json()] resolves to.  An object is the list of
    its members as they were written; a key that was written twice has
    the value that was written last. *)
Unset Elimination Schemes.
Inductive JSON (number : Type) : Type :=
| JNull
| JBool (b : bool)
| JNumber (n : number)
| JString (s : jsstring)
| JArray (items : list (JSON number))
| JObject (members : list (jsstring * JSON number)).
Set Elimination Schemes.

Arguments JNull {number}.
Arguments JBool {number} b.
Arguments JNumber {number} n.
Arguments JString {number} s.
Arguments JArray {number} items.
Arguments JObject {number} members.

(** Where the Dispatcher can raise a [TypeError] on a value that came
    from JSON: reading a property of [null], and calling what is not a
    function. *)
Inductive TypeErrorSite : Type :=
| ReadOfNull (property : string)
| NotAFunction (callee : string).

(** What the Dispatcher needs of Node and that is left open here: the
    numbers, which of them are truthy, [Number(s)] on a string,
    [s.toLowerCase()], [Buffer.from(s, "base64")] on a string, the outcome
    of [Buffer.from(v, "base64")] on any other value ([None] is
    [undefined]), and the message of a [TypeError].  Lower-casing is
    fixed on ASCII strings, where it lowers the letters [A-Z] and nothing
    else. *)
Class Platform : Type := {
  number : Type;
  number_of_N : N → number;
  numberTruthy : number → bool;
  Number : jsstring → number;
  toLowerCase : jsstring → jsstring;
  bufferFromBase64 : jsstring → list N;
  bufferFromOther : option (JSON number) → Thrown + list N;
  typeErrorMessage : TypeErrorSite → jsstring;
  toLowerCase_ascii s : isAscii s → toLowerCase s = lowerAscii <$> s
}.

(** A JavaScript value of the Dispatcher: a string, or what JSON
    gives. *)
Abbreviation Value := (JSON number).
(** ** The Composer (app/page.tsx) *)

Module Composer.

(** *** TagInput: the committed values (a prop) and the text box *)

Record TagInput : Type := { values : list jsstring; input : jsstring }.

(** [setInput(e.target.value)] *)
Definition setInput (v : jsstring) (t : TagInput) : TagInput :=
  {| values := values t; input := v |}.

(** [add]: an input without pieces changes nothing; otherwise the valid
    pieces that are not yet in the list are pushed in order, the list is
    handed to [onChange] and the text box is emptied. *)
Definition add (t : TagInput) : TagInput :=
  let pieces := List.filter truthy (trim <$> split (ch ",") (input t)) in
  if (length pieces =? 0)%nat then t
  else
    let next :=
      foldl (λ next p,
               if isValidEmail p && negb (bool_decide (p ∈ next))
               then next ++ [p] else next)
            (values t) pieces in
    {| values := next; input := [] |}.

(** The remove button of a tag: [onChange(values.filter((x) => x !== v))] *)
Definition remove (v : jsstring) (t : TagInput) : TagInput :=
  {| values := List.filter (λ x, negb (bool_decide (x = v))) (values t);
     input := input t |}.

(** [onKeyDown]: Enter and comma commit, other keys are left to the
    browser. *)
Definition onKeyDown (key : jsstring) (t : TagInput) : TagInput :=
  if bool_decide (key = js "Enter") || bool_decide (key = js ",")
  then add t else t.

(** [!values.every(isValidEmail)]: the warning under the tags. *)
Definition showsInvalidWarning (t : TagInput) : bool :=
  negb (forallb isValidEmail (values t)).

(** *** Home: the form *)

Inductive StatusType : Type := success | error.

Record Status : Type := { kind : StatusType; message : jsstring }.

(** The state of the page: the four [useState] cells, the HTML of the
    editor ([bodyHtml]) and the files of the file input
    ([fileInputRef.current?.files], [None] when undefined). *)
Record Home : Type := {
  from : jsstring;
  to : list jsstring;
  subject : jsstring;
  isSending : bool;
  status : option Status;
  bodyHtml : jsstring;
  files : option (list File)
}.

Definition canSubmit (h : Home) : bool :=
  isValidEmail (from h)
  && (0 <? length (to h))%nat
  && forallb isValidEmail (to h)
  && (0 <? length (trim (subject h)))%nat.

(** [from && !isValidEmail(from)]: the warning under the sender. *)
Definition showsFromWarning (h : Home) : bool :=
  truthy (from h) && negb (isValidEmail (from h)).

(** [disabled={!canSubmit || isSending}] *)
Definition submitDisabled (h : Home) : bool :=
  negb (canSubmit h) || isSending h.

(** The argument of [fetch]. *)
Record Request : Type := { url : jsstring; method : jsstring; body : FormData }.

(** What [fetch] gives back: [res.ok] and the outcome of [res.json()], of
    which the page reads [data?.error] only ([None] when undefined). *)
Record Response : Type := { ok : bool; json : Thrown + option jsstring }.

(** The form that [onSubmit] builds. *)
Definition buildForm (h : Home) : FormData :=
  let form := [] in
  let form := form_set (js "from") (EString (from h)) form in
  let form := form_set (js "to") (EString (join (js ",") (to h))) form in
  let form := form_set (js "subject") (EString (subject h)) form in
  let form := form_set (js "bodyHtml") (EString (bodyHtml h)) form in
  match files h with
  | Some fs =>
      if (0 <? length fs)%nat then
        foldl (λ form f, form_append (js "attachments") (EFile f) form) form fs
      else form
  | None => form
  end.

(** [onSubmit] up to its [await fetch(...)]: nothing when [canSubmit] is
    false, otherwise the state with [isSending] set and [status] cleared,
    and the request. *)
Definition onSubmit_start (h : Home) : option (Home * Request) :=
  if negb (canSubmit h) then None
  else
    let h1 := {| from := from h; to := to h; subject := subject h;
                 isSending := true; status := None;
                 bodyHtml := bodyHtml h; files := files h |} in
    Some (h1, {| url := js "/api/send-email"; method := js "POST";
                 body := buildForm h |}).

Definition setStatus (s : Status) (h : Home) : Home :=
  {| from := from h; to := to h; subject := subject h;
     isSending := isSending h; status := Some s;
     bodyHtml := bodyHtml h; files := files h |}.

Definition setIsSending (b : bool) (h : Home) : Home :=
  {| from := from h; to := to h; subject := subject h;
     isSending := b; status := status h;
     bodyHtml := bodyHtml h; files := files h |}.

(** The [catch] block. *)
Definition onSubmit_catch (err : Thrown) (h : Home) : Home :=
  setStatus {| kind := error;
               message := match err with
                          | ThrownError m => m
                          | ThrownOther => js "Failed to send email"
                          end |} h.

(** [onSubmit] after the [await]: the [try] body, [catch] and
    [finally]. *)
Definition onSubmit_finish (outcome : Thrown + Response) (h : Home) : Home :=
  let h' :=
    match outcome with
    | inl err => onSubmit_catch err h
    | inr res =>
        match json res with
        | inl err => onSubmit_catch err h
        | inr data_error =>
            if negb (ok res) then
              onSubmit_catch
                (ThrownError match data_error with
                             | Some e => if truthy e then e
                                         else js "Failed to send email"
                             | None => js "Failed to send email"
                             end) h
            else
              setStatus {| kind := success;
                           message := js "Email sent successfully." |} h
        end
    end in
  setIsSending false h'.

(** [onSubmit] against a network [fetch]: the final state and the
    requests issued. *)
Definition onSubmit (fetch : Request → Thrown + Response) (h : Home)
  : Home * list Request :=
  match onSubmit_start h with
  | None => (h, [])
  | Some (h1, req) => (onSubmit_finish (fetch req) h1, [req])
  end.

End Composer.
(** ** The Dispatcher (app/api/send-email/route.ts) *)

Module Dispatcher.

(** The argument of [parseCommaOrArray].  Its declared type is
    [FormDataEntryValue | null]; the body also has a branch for arrays,
    whose items are strings or something else. *)
Inductive ArrayItem : Type :=
| ItemString (s : jsstring)
| ItemOther.

Inductive CommaOrArray : Type :=
| ValueNull
| ValueEntry (e : FormDataEntryValue)
| ValueArray (items : list ArrayItem).

Definition parseCommaOrArray (value : CommaOrArray) : list jsstring :=
  match value with
  | ValueNull => []
  | ValueEntry (EString []) => []
  | ValueArray items =>
      List.filter truthy
        (trim <$>
          concat (split (ch ",") <$>
            ((λ v, match v with ItemString s => s | ItemOther => [] end)
               <$> items)))
  | ValueEntry e =>
      let text := match e with EString s => s | EFile _ => [] end in
      List.filter truthy (trim <$> split (ch ",") text)
  end.

(** [s || ""] on an optional string. *)
Definition orEmpty (s : option jsstring) : jsstring :=
  match s with
  | Some s => if truthy s then s else []
  | None => []
  end.

(** [String(v || "")] on the result of [form.get]: a [File] is truthy and
    prints as ["[object File]"]. *)
Definition stringOrEmpty (v : option FormDataEntryValue) : jsstring :=
  match v with
  | Some (EString s) => if truthy s then s else []
  | Some (EFile _) => js "[object File]"
  | None => []
  end.

Definition toCommaOrArray (v : option FormDataEntryValue) : CommaOrArray :=
  match v with
  | Some e => ValueEntry e
  | None => ValueNull
  end.

Section WithPlatform.
Context `{Platform}.

(** The fields as [parseRequest] returns them.  Their declared types are
    [string] and [string[]]; the multipart branch makes them so, the JSON
    branch hands on whatever the body holds. *)
Record ParsedEmailFields : Type := {
  from : Value;
  to : Value;
  subject : Value;
  bodyHtml : Value
}.

(** An attachment as it is handed to the transport; [content] is the
    bytes of the [Buffer], [None] is [undefined]. *)
Record Attachment : Type := {
  filename : option Value;
  content : list N;
  contentType : option Value
}.

(** What the Dispatcher reads of a request: the content-type header
    ([None] when [headers.get] gives [null]), the outcome of
    [req.formData()] and the outcome of [req.json()] ([None] when it
    rejects). *)
Record NextRequest : Type := {
  header_content_type : option jsstring;
  formData : Thrown + FormData;
  json : option Value
}.

Definition typeError (site : TypeErrorSite) : Thrown :=
  ThrownError (typeErrorMessage site).

(** The truthiness of a value; [None] is [undefined]. *)
Definition truthyValue (v : option Value) : bool :=
  match v with
  | None | Some JNull => false
  | Some (JBool b) => b
  | Some (JNumber n) => numberTruthy n
  | Some (JString s) => truthy s
  | Some (JArray _) | Some (JObject _) => true
  end.

(** [v || d] *)
Definition orElse (v : option Value) (d : Value) : Value :=
  match v with
  | Some x => if truthyValue v then x else d
  | None => d
  end.

(** The member of an object: the last one that was written under the
    key. *)
Definition lookupMember (k : string) (members : list (jsstring * Value))
  : option Value :=
  snd <$> last (List.filter (λ m, bool_decide (m.1 = js k)) members).

(** [v.k] for the keys that the Dispatcher reads of a body and of its
    attachments ([from], [to], [subject], [bodyHtml], [attachments],
    [filename], [content], [contentType]): the member of an object,
    [undefined] on a string, a number, a boolean or an array, whose
    prototypes have no such property, and a [TypeError] on [null]. *)
Definition getMember (k : string) (v : Value) : Thrown + option Value :=
  match v with
  | JNull => inl (typeError (ReadOfNull k))
  | JObject members => inr (lookupMember k members)
  | _ => inr None
  end.

(** [Buffer.from(v, "base64")] *)
Definition bufferFrom (v : option Value) : Thrown + list N :=
  match v with
  | Some (JString s) => inr (bufferFromBase64 s)
  | _ => bufferFromOther v
  end.

(** The callback of [map] in the JSON branch, on one attachment. *)
Definition attachmentOfJson (a : Value) : Thrown + Attachment :=
  match getMember "filename" a with
  | inl err => inl err
  | inr filename =>
      match getMember "content" a with
      | inl err => inl err
      | inr content =>
          match bufferFrom content with
          | inl err => inl err
          | inr buffer =>
              match getMember "contentType" a with
              | inl err => inl err
              | inr contentType =>
                  inr {| filename := filename; content := buffer;
                         contentType := contentType |}
              end
          end
      end
  end.

(** [items.map(f)] for an [f] that can throw: the first throw ends
    it. *)
Fixpoint mapThrowing {A B} (f : A → Thrown + B) (items : list A)
  : Thrown + list B :=
  match items with
  | [] => inr []
  | x :: items' =>
      match f x with
      | inl err => inl err
      | inr y =>
          match mapThrowing f items' with
          | inl err => inl err
          | inr ys => inr (y :: ys)
          end
      end
  end.

Definition isMultipart (req : NextRequest) : bool :=
  let contentType := orEmpty (header_content_type req) in
  includes (toLowerCase contentType) (js "multipart/form-data").

Definition parseRequest (req : NextRequest)
  : Thrown + (ParsedEmailFields * list Attachment) :=
  if isMultipart req then
    match formData req with
    | inl err => inl err
    | inr form =>
        let from := stringOrEmpty (form_get (js "from") form) in
        let to := parseCommaOrArray (toCommaOrArray (form_get (js "to") form)) in
        let subject := stringOrEmpty (form_get (js "subject") form) in
        let bodyHtml := stringOrEmpty (form_get (js "bodyHtml") form) in
        let fileEntries := form_getAll (js "attachments") form in
        let attachments :=
          foldl (λ attachments entry,
                   match entry with
                   | EFile f =>
                       attachments ++
                       [{| filename := Some (JString (name f));
                           content := bytes f;
                           contentType := if truthy (type f)
                                          then Some (JString (type f))
                                          else None |}]
                   | EString _ => attachments
                   end) [] fileEntries in
        inr ({| from := JString from; to := JArray (JString <$> to);
                subject := JString subject; bodyHtml := JString bodyHtml |},
             attachments)
    end
  else
    let json := default (JObject []) (json req) in
    match getMember "from" json with
    | inl err => inl err
    | inr json_from =>
    match getMember "to" json with
    | inl err => inl err
    | inr json_to =>
    match getMember "subject" json with
    | inl err => inl err
    | inr json_subject =>
    match getMember "bodyHtml" json with
    | inl err => inl err
    | inr json_bodyHtml =>
        let fields :=
          {| from := orElse json_from (JString []);
             to := orElse json_to (JArray []);
             subject := orElse json_subject (JString []);
             bodyHtml := orElse json_bodyHtml (JString []) |} in
        match getMember "attachments" json with
        | inl err => inl err
        | inr json_attachments =>
            match orElse json_attachments (JArray []) with
            | JArray items =>
                match mapThrowing attachmentOfJson items with
                | inl err => inl err
                | inr attachments => inr (fields, attachments)
                end
            | JNull => inl (typeError (ReadOfNull "map"))
            | _ => inl (typeError (NotAFunction "(json.attachments || []).map"))
            end
        end
    end end end end.

(** [isValidEmail(v)]: [v.trim()] is a [TypeError] unless [v] is a
    string. *)
Definition isValidEmailOf (v : Value) : Thrown + bool :=
  match v with
  | JString s => inr (isValidEmail s)
  | JNull => inl (typeError (ReadOfNull "trim"))
  | _ => inl (typeError (NotAFunction "email.trim"))
  end.

(** [items.every(isValidEmail)] on an array: it stops at the first item
    that is refused, and at the first throw. *)
Fixpoint everyValid (items : list Value) : Thrown + bool :=
  match items with
  | [] => inr true
  | v :: items' =>
      match isValidEmailOf v with
      | inl err => inl err
      | inr false => inr false
      | inr true => everyValid items'
      end
  end.

(** [!from || !isValidEmail(from)] *)
Definition fromRejected (fields : ParsedEmailFields) : Thrown + bool :=
  if negb (truthyValue (Some (from fields))) then inr true
  else match isValidEmailOf (from fields) with
       | inl err => inl err
       | inr valid => inr (negb valid)
       end.

(** The truthiness of [to.length]: the length of an array or of a
    string, the member of an object, [undefined] on a number or a
    boolean. *)
Definition lengthTruthy (to : Value) : Thrown + bool :=
  match to with
  | JNull => inl (typeError (ReadOfNull "length"))
  | JArray items => inr (0 <? length items)%nat
  | JString s => inr (truthy s)
  | JObject members => inr (truthyValue (lookupMember "length" members))
  | JBool _ | JNumber _ => inr false
  end.

(** [to.every(isValidEmail)]: only an array has a function [every]. *)
Definition everyOf (to : Value) : Thrown + bool :=
  match to with
  | JArray items => everyValid items
  | JNull => inl (typeError (ReadOfNull "every"))
  | _ => inl (typeError (NotAFunction "to.every"))
  end.

(** [!to.length || !to.every(isValidEmail)] *)
Definition toRejected (fields : ParsedEmailFields) : Thrown + bool :=
  match lengthTruthy (to fields) with
  | inl err => inl err
  | inr false => inr true
  | inr true =>
      match everyOf (to fields) with
      | inl err => inl err
      | inr valid => inr (negb valid)
      end
  end.

(** [to.join(",")].  [POST] reaches it only after [toRejected] gave
    [false], when [to] is an array of strings
    ([toRejected_false_strings]); an item that is [null] joins as the
    empty string, and the other cases are left empty here. *)
Definition joinRecipients (to : Value) : jsstring :=
  match to with
  | JArray items =>
      join (js ",")
        ((λ v, match v with JString s => s | _ => [] end) <$> items)
  | _ => []
  end.

(** The options of [nodemailer.createTransport]. *)
Record TransportOptions : Type := {
  host : jsstring;
  port : number;
  secure : bool;
  auth_user : jsstring;
  auth_pass : jsstring
}.

(** The object that is printed by [console.log]. *)
Record LoggedConfig : Type := {
  log_host : option jsstring;
  log_port : number;
  log_user : option jsstring;
  log_secure : bool
}.

(** The argument of [transporter.sendMail]. *)
Record MailOptions : Type := {
  mail_from : Value;
  mail_to : jsstring;
  mail_subject : Value;
  mail_html : Value;
  mail_attachments : list Attachment
}.

Record SentMessageInfo : Type := { messageId : jsstring }.

(** What [POST] does besides answering, in order. *)
Inductive Event : Type :=
| ConsoleLog (config : LoggedConfig)
| ConsoleError (err : Thrown)
| CreateTransport (options : TransportOptions)
| SendMail (options : TransportOptions) (mail : MailOptions).

Inductive Body : Type :=
| ErrorBody (error : jsstring)
| SentBody (success : bool) (messageId : jsstring).

(** [NextResponse.json(body, { status })]; the status is 200 when none is
    given. *)
Record Response : Type := { status : N; body : Body }.

(** [process.env]: a variable is a string or is unset. *)
Definition Env : Type := gmap string jsstring.

(** The truthiness of [process.env.X]. *)
Definition isSet (v : option jsstring) : bool :=
  match v with
  | Some s => truthy s
  | None => false
  end.

(** [Number(process.env.SMTP_PORT || 587)] *)
Definition smtpPort (env : Env) : number :=
  match env !! "SMTP_PORT" with
  | Some s => if truthy s then Number s else number_of_N 587
  | None => number_of_N 587
  end.

(** [String(process.env.SMTP_SECURE || "false").toLowerCase() === "true"] *)
Definition smtpSecure (env : Env) : bool :=
  let v := match env !! "SMTP_SECURE" with
           | Some s => if truthy s then s else js "false"
           | None => js "false"
           end in
  bool_decide (toLowerCase v = js "true").

(** The [try] block of [POST], against the environment and a transport
    whose [sendMail] resolves with an info or rejects: the response, or
    what was thrown, and the events in order. *)
Definition POST_try (env : Env)
    (sendMail : TransportOptions → MailOptions → Thrown + SentMessageInfo)
    (req : NextRequest) : (Thrown + Response) * list Event :=
  match parseRequest req with
  | inl err => (inl err, [])
  | inr (fields, attachments) =>
      match fromRejected fields with
      | inl err => (inl err, [])
      | inr true =>
          (inr {| status := 400;
                  body := ErrorBody (js "Valid 'from' email is required") |},
           [])
      | inr false =>
      match toRejected fields with
      | inl err => (inl err, [])
      | inr true =>
          (inr {| status := 400;
                  body := ErrorBody
                            (js "Provide at least one valid 'to' email") |},
           [])
      | inr false =>
        let host := env !! "SMTP_HOST" in
        let port := smtpPort env in
        let user := env !! "SMTP_USER" in
        let pass := env !! "SMTP_PASS" in
        let secure := smtpSecure env in
        let log :=
          ConsoleLog {| log_host := host; log_port := port;
                        log_user := if isSet user then Some (js "***") else None;
                        log_secure := secure |} in
        match host, user, pass with
        | Some host, Some user, Some pass =>
            if negb (truthy host) || negb (truthy user) || negb (truthy pass)
            then
              (inr {| status := 500;
                      body := ErrorBody
                        (js "SMTP credentials are not configured on the server") |},
               [log])
            else
              let options :=
                {| host := host; port := port; secure := secure;
                   auth_user := user; auth_pass := pass |} in
              let mail :=
                {| mail_from := from fields;
                   mail_to := joinRecipients (to fields);
                   mail_subject := subject fields;
                   mail_html := orElse (Some (bodyHtml fields)) (JString []);
                   mail_attachments := attachments |} in
              match sendMail options mail with
              | inr info =>
                  (inr {| status := 200;
                          body := SentBody true (messageId info) |},
                   [log; CreateTransport options; SendMail options mail])
              | inl err =>
                  (inl err,
                   [log; CreateTransport options; SendMail options mail])
              end
        | _, _, _ =>
            (inr {| status := 500;
                    body := ErrorBody
                      (js "SMTP credentials are not configured on the server") |},
             [log])
        end
      end end
  end.

(** The [catch] block of [POST]. *)
Definition POST_catch (err : Thrown) : Response * list Event :=
  let message := match err with
                 | ThrownError m => m
                 | ThrownOther => js "Unexpected error while sending email"
                 end in
  ({| status := 500; body := ErrorBody message |}, [ConsoleError err]).

(** [POST]: the response and the events, in order. *)
Definition POST (env : Env)
    (sendMail : TransportOptions → MailOptions → Thrown + SentMessageInfo)
    (req : NextRequest) : Response * list Event :=
  match POST_try env sendMail req with
  | (inr response, events) => (response, events)
  | (inl err, events) =>
      let '(response, printed) := POST_catch err in
      (response, events ++ printed)
  end.

End WithPlatform.

End Dispatcher.
(** ** A platform for the examples

    Decimal numerals for [Number] (an optional natural number, [None]
    standing for what is not a plain numeral), ASCII lower-casing,
    base64 over the standard alphabet, a [Buffer.from] that takes an
    array of numbers as bytes and refuses the other values that are not
    strings, and the messages of V8. *)

Definition digitsValue (s : jsstring) : option N :=
  foldl (λ acc c, n ← acc;
                  if (ch "0" <=? c) && (c <=? ch "9")
                  then Some (10 * n + (c - ch "0")) else None)
        (Some 0) s.

Definition sextet (c : N) : option N :=
  if (ch "A" <=? c) && (c <=? ch "Z") then Some (c - ch "A")
  else if (ch "a" <=? c) && (c <=? ch "z") then Some (c - ch "a" + 26)
  else if (ch "0" <=? c) && (c <=? ch "9") then Some (c - ch "0" + 52)
  else if c =? ch "+" then Some 62
  else if c =? ch "/" then Some 63
  else None.

Fixpoint sextetsToBytes (l : list N) : list N :=
  match l with
  | a :: b :: c :: d :: l' =>
      (a * 4 + b / 16) :: ((b mod 16) * 16 + c / 4) :: ((c mod 4) * 64 + d)
      :: sextetsToBytes l'
  | [a; b; c] => [a * 4 + b / 16; (b mod 16) * 16 + c / 4]
  | [a; b] => [a * 4 + b / 16]
  | _ => []
  end.

Definition decodeBase64 (s : jsstring) : list N :=
  sextetsToBytes (omap sextet s).

Definition exampleBufferFromOther (v : option (JSON (option N)))
  : Thrown + list N :=
  let refused :=
    inl (ThrownError (js "The first argument must be of type string")) in
  match v with
  | Some (JArray items) =>
      match mapM (λ item, match item with
                          | JNumber (Some n) => Some (n mod 256)
                          | _ => None
                          end) items with
      | Some bytes => inr bytes
      | None => refused
      end
  | _ => refused
  end.

Definition exampleTypeErrorMessage (site : TypeErrorSite) : jsstring :=
  match site with
  | ReadOfNull property =>
      js ("Cannot read properties of null (reading '" ++ property ++ "')")
  | NotAFunction callee => js (callee ++ " is not a function")
  end.

Definition examplePlatform : Platform := {|
  number := option N;
  number_of_N := Some;
  numberTruthy := λ n, match n with Some (Npos _) => true | _ => false end;
  Number := λ s, digitsValue (trim s);
  toLowerCase := fmap lowerAscii;
  bufferFromBase64 := decodeBase64;
  bufferFromOther := exampleBufferFromOther;
  typeErrorMessage := exampleTypeErrorMessage;
  toLowerCase_ascii := λ s _, eq_refl
|}.
(** ** Predicates of the statements *)

(** Strings made of white space only. *)
Definition blank (w : jsstring) : Prop := Forall (λ c, isWhiteSpace c = true) w.

(** The string does not start, or does not end, with white space. *)
Definition noLead (s : jsstring) : Prop :=
  match s with
  | [] => True
  | c :: _ => isWhiteSpace c = false
  end.

Definition noTrail (s : jsstring) : Prop := noLead (reverse s).

(** The class items of a pattern: every character of a match belongs to
    one of them. *)
Fixpoint alphabet (r : regex) : list ClassItem :=
  match r with
  | Eps => []
  | Class items => items
  | Seq r1 r2 | Alt r1 r2 => alphabet r1 ++ alphabet r2
  | Star r1 => alphabet r1
  end.

(** The characters of an address: those of the local part, the dot and
    the at sign. *)
Definition addressChar (c : N) : bool :=
  specLocalChar c || (c =? ch ".") || (c =? ch "@").

(** The first occurrences of a list, in order. *)
Fixpoint nub (l : list jsstring) : list jsstring :=
  match l with
  | [] => []
  | p :: l' => p :: List.filter (λ q, negb (bool_decide (q = p))) (nub l')
  end.

(** The non-blank pieces of a comma-separated text, trimmed: what both
    [TagInput.add] and [parseCommaOrArray] make of a string. *)
Definition piecesOf (text : jsstring) : list jsstring :=
  List.filter truthy (trim <$> split (ch ",") text).

(** A piece that [add] takes: valid and not yet in the list. *)
Definition isNewIn (values : list jsstring) (p : jsstring) : bool :=
  isValidEmail p && negb (bool_decide (p ∈ values)).

(** ** Examples *)

Definition exampleFile : File :=
  {| name := js "cv.pdf"; type := js "application/pdf";
     bytes := [37; 80; 68; 70] |}.

Definition exampleHome : Composer.Home :=
  {| Composer.from := js "me@example.com";
     Composer.to := [js "x@y.com"; js "z@y.com"];
     Composer.subject := js "Referral";
     Composer.isSending := false;
     Composer.status := None;
     Composer.bodyHtml := js "<p>Hello</p>";
     Composer.files := Some [exampleFile] |}.

(** A network that answers every request with a 400 and an error text. *)
Definition exampleRefusal (_ : Composer.Request)
  : Thrown + Composer.Response :=
  inr {| Composer.ok := false;
         Composer.json := inr (Some (js "Valid 'from' email is required")) |}.

(** ** Notions of the statements about the Dispatcher *)

Section DispatcherNotions.
Import Dispatcher.
Context `{Platform}.

(** Fields of the declared types: strings, and a list of strings. *)
Definition typedFields (from : jsstring) (to : list jsstring)
    (subject bodyHtml : jsstring) : ParsedEmailFields :=
  {| from := JString from; to := JArray (JString <$> to);
     subject := JString subject; bodyHtml := JString bodyHtml |}.

(** The files among the [attachments] entries of a form. *)
Definition uploadedFiles (form : FormData) : list File :=
  omap (λ e, match e with EFile f => Some f | EString _ => None end)
       (form_getAll (js "attachments") form).

Definition attachmentOfFile (f : File) : Attachment :=
  {| filename := Some (JString (name f)); content := bytes f;
     contentType := if truthy (type f) then Some (JString (type f))
                    else None |}.

(** The three variables without which [POST] does not send. *)
Definition configured (env : Env) : bool :=
  isSet (env !! "SMTP_HOST") && isSet (env !! "SMTP_USER")
  && isSet (env !! "SMTP_PASS").

Definition loggedConfig (env : Env) : LoggedConfig :=
  {| log_host := env !! "SMTP_HOST"; log_port := smtpPort env;
     log_user := if isSet (env !! "SMTP_USER") then Some (js "***") else None;
     log_secure := smtpSecure env |}.

Definition transportOptions (env : Env) : TransportOptions :=
  {| host := default [] (env !! "SMTP_HOST"); port := smtpPort env;
     secure := smtpSecure env;
     auth_user := default [] (env !! "SMTP_USER");
     auth_pass := default [] (env !! "SMTP_PASS") |}.

Definition mailOptions (fields : ParsedEmailFields)
    (attachments : list Attachment) : MailOptions :=
  {| mail_from := from fields; mail_to := joinRecipients (to fields);
     mail_subject := subject fields;
     mail_html := orElse (Some (bodyHtml fields)) (JString []);
     mail_attachments := attachments |}.

Definition errorResponse (code : N) (text : string) : Response :=
  {| status := code; body := ErrorBody (js text) |}.

(** The answer and the events of the [catch] block for a [TypeError]. *)
Definition typeErrorAnswer (site : TypeErrorSite) : Response * list Event :=
  ({| status := 500; body := ErrorBody (typeErrorMessage site) |},
   [ConsoleError (typeError site)]).

End DispatcherNotions.

(** The Dispatcher's side of the examples: an environment with the three
    credentials and no port, a transport that accepts every mail, one
    that refuses every mail, a multipart request with the form of
    [exampleHome], and JSON requests. *)

Definition exampleEnv : Dispatcher.Env :=
  {[ "SMTP_HOST" := js "smtp.example.com"; "SMTP_USER" := js "mailer";
     "SMTP_PASS" := js "secret" ]}.

Definition exampleTransport
    (_ : Dispatcher.TransportOptions (H := examplePlatform))
    (_ : Dispatcher.MailOptions (H := examplePlatform))
  : Thrown + Dispatcher.SentMessageInfo :=
  inr {| Dispatcher.messageId := js "<1@example.com>" |}.

Definition exampleBrokenTransport
    (_ : Dispatcher.TransportOptions (H := examplePlatform))
    (_ : Dispatcher.MailOptions (H := examplePlatform))
  : Thrown + Dispatcher.SentMessageInfo :=
  inl (ThrownError (js "connect ECONNREFUSED")).

Definition exampleMultipart : Dispatcher.NextRequest (H := examplePlatform) :=
  {| Dispatcher.header_content_type :=
       Some (js "multipart/form-data; boundary=x");
     Dispatcher.formData := inr (Composer.buildForm exampleHome);
     Dispatcher.json := None |}.

Definition exampleJson `{Platform} (body : option Value)
  : Dispatcher.NextRequest :=
  {| Dispatcher.header_content_type := Some (js "application/json");
     Dispatcher.formData := inl (ThrownError (js "not a form"));
     Dispatcher.json := body |}.

(** [{"from":"a@x.com","to":["b@x.com"," "],"subject":"Referral"}] *)
Definition exampleJsonBody `{Platform} : Value :=
  JObject [(js "from", JString (js "a@x.com"));
           (js "to", JArray [JString (js "b@x.com"); JString (js " ")]);
           (js "subject", JString (js "Referral"))].

(** [{"from":"a@x.com","to":["b@x.com",null]}] *)
Definition exampleNullRecipient `{Platform} : Value :=
  JObject [(js "from", JString (js "a@x.com"));
           (js "to", JArray [JString (js "b@x.com"); JNull])].

(** [{"from":["a@x.com"],"to":["b@x.com"]}] *)
Definition exampleListSender `{Platform} : Value :=
  JObject [(js "from", JArray [JString (js "a@x.com")]);
           (js "to", JArray [JString (js "b@x.com")])].

(** What the Dispatcher parses from [exampleMultipart]. *)
Definition exampleFields : Dispatcher.ParsedEmailFields (H := examplePlatform) :=
  typedFields (js "me@example.com") [js "x@y.com"; js "z@y.com"]
              (js "Referral") (js "<p>Hello</p>").

Definition exampleAttachments
  : list (Dispatcher.Attachment (H := examplePlatform)) :=
  [attachmentOfFile exampleFile].

(** A tag input with one committed address and a text to commit. *)
Definition exampleTagInput : Composer.TagInput :=
  {| Composer.values := [js "a@b.co"];
     Composer.input := js "x@y.com, bad, a@b.co" |}.
(** * Properties *)

(** ** Correctness of the matcher *)

Section RegexFacts.
Implicit Types (r : regex) (s : jsstring) (c : N).

Lemma matches_eps s : matches Eps s ↔ s = [].
Proof. split; [by inversion 1 | intros ->; constructor]. Qed.

Lemma matches_class items s :
  matches (Class items) s ↔ ∃ c, s = [c] ∧ in_class items c = true.
Proof.
  split.
  - inversion 1; subst. eauto.
  - intros (c & -> & Hc). by constructor.
Qed.

Lemma matches_void s : ¬ matches Void s.
Proof. unfold Void. rewrite matches_class. by intros (c & _ & Hc). Qed.

Lemma matches_lit d s : matches (Lit d) s ↔ s = [d].
Proof.
  unfold Lit. rewrite matches_class. unfold in_class; simpl. split.
  - intros (c & -> & Hc). rewrite orb_false_r in Hc.
    by apply N.eqb_eq in Hc as ->.
  - intros ->. exists d. by rewrite N.eqb_refl.
Qed.

Lemma matches_seq r1 r2 s :
  matches (Seq r1 r2) s ↔
  ∃ s1 s2, s = s1 ++ s2 ∧ matches r1 s1 ∧ matches r2 s2.
Proof.
  split.
  - inversion 1; subst. eauto.
  - intros (s1 & s2 & -> & H1 & H2). by constructor.
Qed.

Lemma matches_alt r1 r2 s :
  matches (Alt r1 r2) s ↔ matches r1 s ∨ matches r2 s.
Proof.
  split.
  - inversion 1; subst; auto.
  - intros [H|H]; [by apply MAltL | by apply MAltR].
Qed.

(** A starred pattern matches the concatenations of matches of its
    body. *)
Lemma matches_star r s :
  matches (Star r) s ↔ ∃ ss, s = concat ss ∧ Forall (matches r) ss.
Proof.
  split.
  - intros H. remember (Star r) as r' eqn:Er.
    induction H; try discriminate; injection Er as ->.
    + by exists [].
    + destruct (IHmatches2 eq_refl) as (ss & -> & Hss).
      exists (s1 :: ss). split; [done | by constructor].
  - intros (ss & -> & Hss). induction Hss; simpl; by constructor.
Qed.

(** A match of [r*] that starts with [c] starts with a match of [r]
    that starts with [c]. *)
Lemma matches_star_cons r c s :
  matches (Star r) (c :: s) →
  ∃ s1 s2, s = s1 ++ s2 ∧ matches r (c :: s1) ∧ matches (Star r) s2.
Proof.
  intros H. remember (Star r) as r' eqn:Er.
  remember (c :: s) as cs eqn:Es. revert s Es.
  induction H; intros t Es; try discriminate; injection Er as ->.
  destruct s1 as [|c1 s1]; simpl in Es.
  - by apply IHmatches2.
  - injection Es as -> <-. eauto.
Qed.

Lemma nullable_matches r : nullable r = true ↔ matches r [].
Proof.
  induction r as [|items|r1 IH1 r2 IH2|r1 IH1 r2 IH2|r IH]; simpl.
  - split; [constructor | done].
  - rewrite matches_class. split; [done | by intros (c & ? & _)].
  - rewrite andb_true_iff, IH1, IH2, matches_seq. split.
    + intros [H1 H2]. by exists [], [].
    + intros (s1 & s2 & Hs & H1 & H2).
      symmetry in Hs. apply app_eq_nil in Hs as [-> ->]. done.
  - by rewrite orb_true_iff, IH1, IH2, matches_alt.
  - split; [constructor | done].
Qed.

Lemma deriv_matches r c s : matches (deriv c r) s ↔ matches r (c :: s).
Proof.
  revert s.
  induction r as [|items|r1 IH1 r2 IH2|r1 IH1 r2 IH2|r IH]; intros s; simpl.
  - rewrite matches_eps. split; [by intros ?%matches_void | done].
  - rewrite matches_class. destruct (in_class items c) eqn:Hc.
    + rewrite matches_eps. split.
      * intros ->. eauto.
      * by intros (d & [= _ ->] & _).
    + split; [by intros ?%matches_void |].
      intros (d & [= -> _] & Hd). congruence.
  - assert (Hhead : matches (Seq (deriv c r1) r2) s ↔
              ∃ s1 s2, s = s1 ++ s2 ∧ matches r1 (c :: s1) ∧ matches r2 s2).
    { rewrite matches_seq. by setoid_rewrite IH1. }
    rewrite (matches_seq r1 r2).
    destruct (nullable r1) eqn:Hn.
    + rewrite matches_alt, Hhead, IH2. split.
      * intros [(s1 & s2 & -> & H1 & H2)|H2].
        -- by exists (c :: s1), s2.
        -- apply nullable_matches in Hn. by exists [], (c :: s).
      * intros (s1 & s2 & Hs & H1 & H2). destruct s1 as [|c1 s1]; simpl in Hs.
        -- right. by rewrite Hs.
        -- injection Hs as <- ->. left. eauto.
    + rewrite Hhead. split.
      * intros (s1 & s2 & -> & H1 & H2). by exists (c :: s1), s2.
      * intros (s1 & s2 & Hs & H1 & H2). destruct s1 as [|c1 s1]; simpl in Hs.
        -- apply nullable_matches in H1. congruence.
        -- injection Hs as <- ->. eauto.
  - by rewrite !matches_alt, IH1, IH2.
  - rewrite matches_seq. setoid_rewrite IH. split.
    + intros (s1 & s2 & -> & H1 & H2). by apply (MStarApp r (c :: s1) s2).
    + apply matches_star_cons.
Qed.

(** The derivative matcher decides the language of the pattern. *)
Theorem test_matches r s : test r s = true ↔ matches r s.
Proof.
  revert r. induction s as [|c s IH]; intros r; simpl.
  - apply nullable_matches.
  - by rewrite IH, deriv_matches.
Qed.

End RegexFacts.

Section GrammarFacts.
Implicit Types (r : regex) (s : jsstring) (c : N).

Lemma matches_star_class items s :
  matches (Star (Class items)) s ↔ Forall (λ c, in_class items c = true) s.
Proof.
  rewrite matches_star. split.
  - intros (ss & -> & Hss). induction Hss as [|s1 ss H1 _ IH]; simpl; [done|].
    apply matches_class in H1 as (c & -> & Hc). by constructor.
  - intros Hs. exists ((λ c, [c]) <$> s). split.
    + induction s as [|c s IH]; simpl; [done|].
      f_equal. apply IH. by inversion Hs.
    + induction Hs; simpl; constructor; [by constructor | done].
Qed.

Lemma matches_plus_class items s :
  matches (Plus (Class items)) s ↔ run (in_class items) s.
Proof.
  unfold Plus, run. rewrite matches_seq. split.
  - intros (s1 & s2 & -> & (c & -> & Hc)%matches_class & H2%matches_star_class).
    split; [done | by constructor].
  - intros [Hne Hs]. destruct Hs as [|c s Hc Hs]; [done|].
    exists [c], s. split_and!; [done | by constructor | by apply matches_star_class].
Qed.

Lemma matches_atleast2_class items s :
  matches (AtLeast 2 (Class items)) s ↔
  (2 ≤ length s)%nat ∧ Forall (λ c, in_class items c = true) s.
Proof.
  simpl. rewrite matches_seq. setoid_rewrite matches_seq.
  setoid_rewrite matches_class. setoid_rewrite matches_star_class. split.
  - intros (? & ? & -> & (c1 & -> & H1) & ? & s3 & -> & (c2 & -> & H2) & H3).
    simpl. split; [lia | by repeat constructor].
  - intros [Hlen Hs]. destruct Hs as [|c1 s H1 Hs]; [simpl in Hlen; lia|].
    destruct Hs as [|c2 s H2 Hs]; [simpl in Hlen; lia|].
    exists [c1], (c2 :: s). split_and!; [done | eauto |].
    exists [c2], s. split_and!; [done | eauto | done].
Qed.

Lemma join_cons sep p ps :
  join sep (p :: ps) = p ++ concat ((λ q, sep ++ q) <$> ps).
Proof.
  revert p. induction ps as [|q ps IH]; intros p.
  - simpl. by rewrite app_nil_r.
  - change (join sep (p :: q :: ps)) with (p ++ sep ++ join sep (q :: ps)).
    rewrite IH. simpl. by rewrite <- !app_assoc.
Qed.

Lemma join_snoc_sep sep p ps :
  join sep (p :: ps) ++ sep = concat ((λ q, q ++ sep) <$> (p :: ps)).
Proof.
  revert p. induction ps as [|q ps IH]; intros p.
  - simpl. by rewrite app_nil_r.
  - change (join sep (p :: q :: ps)) with (p ++ sep ++ join sep (q :: ps)).
    rewrite <- !app_assoc, IH. simpl. by rewrite <- !app_assoc.
Qed.

(** [r(?:\.r)*] matches the dot-separated non-empty lists of matches
    of [r]. *)
Lemma matches_dot_separated r s :
  matches (Seq r (Star (Seq (Lit (ch ".")) r))) s ↔
  ∃ parts, parts ≠ [] ∧ Forall (matches r) parts ∧ s = join (js ".") parts.
Proof.
  rewrite matches_seq. setoid_rewrite matches_star. split.
  - intros (s1 & s2 & -> & H1 & ss & -> & Hss).
    assert (∃ ps, Forall (matches r) ps ∧ ss = (λ q, js "." ++ q) <$> ps)
      as (ps & Hps & ->).
    { clear H1. induction Hss as [|x ss Hx _ (ps & Hps & ->)]; [by exists []|].
      apply matches_seq in Hx as (d & q & -> & ->%matches_lit & Hq).
      exists (q :: ps). split; [by constructor | done]. }
    exists (s1 :: ps). split_and!; [done | by constructor |].
    by rewrite join_cons.
  - intros (parts & Hne & Hparts & ->). destruct Hparts as [|p ps Hp Hps]; [done|].
    exists p, (concat ((λ q, js "." ++ q) <$> ps)).
    split_and!; [apply join_cons | done |].
    eexists; split; [done|]. clear Hne Hp.
    induction Hps as [|q ps Hq _ IH]; simpl; constructor; [|done].
    apply (MSeq (Lit (ch ".")) r (js ".") q); [by apply matches_lit | done].
Qed.

(** [(?:r\.)+] matches the non-empty lists of matches of [r], joined
    by dots and followed by one more dot. *)
Lemma matches_dot_terminated r s :
  matches (Plus (Seq r (Lit (ch ".")))) s ↔
  ∃ parts, parts ≠ [] ∧ Forall (matches r) parts ∧
           s = join (js ".") parts ++ js ".".
Proof.
  unfold Plus. rewrite matches_seq. setoid_rewrite matches_star.
  setoid_rewrite matches_seq. setoid_rewrite matches_lit. split.
  - intros (? & ? & -> & (p & ? & -> & Hp & ->) & ss & -> & Hss).
    assert (∃ ps, Forall (matches r) ps ∧ ss = (λ q, q ++ js ".") <$> ps)
      as (ps & Hps & ->).
    { clear Hp. induction Hss as [|x ss Hx _ (ps & Hps & ->)]; [by exists []|].
      apply matches_seq in Hx as (q & d & -> & Hq & ->%matches_lit).
      exists (q :: ps). split; [by constructor | done]. }
    exists (p :: ps). split_and!; [done | by constructor |].
    by rewrite join_snoc_sep.
  - intros (parts & Hne & Hparts & ->). destruct Hparts as [|p ps Hp Hps]; [done|].
    rewrite join_snoc_sep. simpl.
    eexists _, _. split_and!; [done | by eauto |].
    eexists; split; [done|]. clear Hne Hp.
    induction Hps as [|q ps Hq _ IH]; simpl; constructor; [|done].
    apply (MSeq r (Lit (ch ".")) q (js ".")); [done | by apply matches_lit].
Qed.

End GrammarFacts.

(** ** The pattern and the grammar *)

Section PatternFacts.
Implicit Types (r : regex) (s : jsstring) (c : N).

Lemma existsb_elem_of (c : N) (l : list N) :
  existsb (N.eqb c) l = bool_decide (c ∈ l).
Proof.
  induction l as [|d l IH]; cbn [existsb].
  - by rewrite bool_decide_eq_false_2 by apply not_elem_of_nil.
  - rewrite IH. destruct (N.eqb_spec c d) as [->|Hne]; cbn [orb].
    + symmetry. apply bool_decide_eq_true_2. left.
    + apply bool_decide_ext. rewrite elem_of_cons. split; [auto | by intros [?|?]].
Qed.

Lemma in_class_local c :
  in_class [CRange (ch "a") (ch "z"); CRange (ch "A") (ch "Z");
            CRange (ch "0") (ch "9"); CChar (ch "_"); CChar (ch "'");
            CChar (ch "^"); CChar (ch "&"); CChar (ch "+"); CChar (ch "-")] c
  = specLocalChar c.
Proof.
  unfold specLocalChar, isLetter, isDigit. rewrite <- existsb_elem_of.
  unfold in_class. simpl. by rewrite !orb_false_r, !orb_assoc.
Qed.

Lemma in_class_domain c :
  in_class [CRange (ch "a") (ch "z"); CRange (ch "A") (ch "Z");
            CRange (ch "0") (ch "9"); CChar (ch "-")] c
  = specLabelChar c.
Proof.
  unfold specLabelChar, isLetter, isDigit, in_class. simpl.
  by rewrite !orb_false_r, !orb_assoc.
Qed.

Lemma in_class_alpha c :
  in_class [CRange (ch "a") (ch "z"); CRange (ch "A") (ch "Z")] c = isLetter c.
Proof. unfold isLetter, in_class. simpl. by rewrite !orb_false_r. Qed.

Lemma run_ext (P Q : N → bool) s : (∀ c, P c = Q c) → run P s ↔ run Q s.
Proof.
  intros HPQ. unfold run. apply and_iff_compat_l, Forall_proper; [|done].
  intros c. by rewrite HPQ.
Qed.

Lemma matches_seq_assoc r1 r2 r3 s :
  matches (Seq r1 (Seq r2 r3)) s ↔ matches (Seq (Seq r1 r2) r3) s.
Proof.
  rewrite !matches_seq. setoid_rewrite matches_seq. split.
  - intros (s1 & ? & -> & H1 & s2 & s3 & -> & H2 & H3).
    exists (s1 ++ s2), s3. rewrite app_assoc. eauto 10.
  - intros (? & s3 & -> & (s1 & s2 & -> & H1 & H2) & H3).
    exists s1, (s2 ++ s3). rewrite app_assoc. eauto 10.
Qed.

Lemma matches_plus_local s : matches (Plus localClass) s ↔ run specLocalChar s.
Proof. unfold localClass. rewrite matches_plus_class. apply run_ext, in_class_local. Qed.

Lemma matches_plus_domain s : matches (Plus domainClass) s ↔ run specLabelChar s.
Proof. unfold domainClass. rewrite matches_plus_class. apply run_ext, in_class_domain. Qed.

Lemma matches_tld s :
  matches (AtLeast 2 alphaClass) s ↔
  (2 ≤ length s)%nat ∧ Forall (λ c, isLetter c = true) s.
Proof.
  unfold alphaClass. rewrite matches_atleast2_class.
  apply and_iff_compat_l, Forall_iff. intros c. by rewrite in_class_alpha.
Qed.

Lemma emailPattern_specAddress s : matches emailPattern s ↔ specAddress s.
Proof.
  unfold emailPattern, specAddress.
  rewrite matches_seq_assoc, matches_seq.
  setoid_rewrite matches_dot_separated.
  setoid_rewrite matches_seq. setoid_rewrite matches_lit.
  setoid_rewrite matches_seq. setoid_rewrite matches_dot_terminated.
  setoid_rewrite matches_tld.
  split.
  - intros (? & ? & -> & (runs & Hr & Hruns & ->) & ? & ? & -> & -> & ? & tld & ->
            & (labels & Hl & Hlabels & ->) & Hlen & Htld).
    rewrite (Forall_iff _ runs _ matches_plus_local) in Hruns.
    rewrite (Forall_iff _ labels _ matches_plus_domain) in Hlabels.
    exists runs, labels, tld. split_and!; try done.
    by rewrite <- !app_assoc.
  - intros (runs & labels & tld & Hr & Hruns & Hl & Hlabels & Hlen & Htld & ->).
    rewrite <- (Forall_iff _ runs _ matches_plus_local) in Hruns.
    rewrite <- (Forall_iff _ labels _ matches_plus_domain) in Hlabels.
    eexists _, _. split; [reflexivity|]. split; [by exists runs|].
    eexists _, _. split; [reflexivity|]. split; [reflexivity|].
    exists (join (js ".") labels ++ js "."), tld.
    split; [by rewrite <- app_assoc|]. split; [by exists labels | done].
Qed.

Lemma test_emailPattern s : test emailPattern s = true ↔ specAddress s.
Proof. by rewrite test_matches, emailPattern_specAddress. Qed.

End PatternFacts.

(** ** Trimming, splitting and joining *)

Section StringFacts.
Implicit Types (s w : jsstring) (c : N).

Lemma blank_reverse w : blank w → blank (reverse w).
Proof. unfold blank. by rewrite Forall_reverse. Qed.

Lemma trimStart_blank_app w s : blank w → trimStart (w ++ s) = trimStart s.
Proof. induction 1 as [|c w Hc _ IH]; simpl; [done | by rewrite Hc]. Qed.

Lemma trimStart_blank w : blank w → trimStart w = [].
Proof. intros Hw. by rewrite <- (app_nil_r w), trimStart_blank_app. Qed.

Lemma trimStart_noLead s : noLead (trimStart s).
Proof.
  induction s as [|c s IH]; simpl; [done|].
  by destruct (isWhiteSpace c) eqn:Hc.
Qed.

Lemma trimStart_id s : noLead s → trimStart s = s.
Proof. destruct s as [|c s]; simpl; [done | by intros ->]. Qed.

Lemma trimStart_decomp s : ∃ w, blank w ∧ s = w ++ trimStart s.
Proof.
  induction s as [|c s (w & Hw & IH)]; simpl; [exists []; by split; [constructor|] |].
  destruct (isWhiteSpace c) eqn:Hc; [|exists []; by split; [constructor|]].
  exists (c :: w). split; [by constructor | by rewrite IH at 1].
Qed.

Lemma trimEnd_blank_app s w : blank w → trimEnd (s ++ w) = trimEnd s.
Proof.
  intros Hw. unfold trimEnd.
  by rewrite reverse_app, trimStart_blank_app by by apply blank_reverse.
Qed.

Lemma trimEnd_id s : noTrail s → trimEnd s = s.
Proof.
  intros Hs. unfold trimEnd. by rewrite trimStart_id, reverse_involutive.
Qed.

Lemma trimEnd_noTrail s : noTrail (trimEnd s).
Proof.
  unfold noTrail, trimEnd. rewrite reverse_involutive. apply trimStart_noLead.
Qed.

Lemma trimEnd_decomp s : ∃ w, blank w ∧ s = trimEnd s ++ w.
Proof.
  destruct (trimStart_decomp (reverse s)) as (w & Hw & Hs).
  exists (reverse w). split; [by apply blank_reverse|].
  unfold trimEnd. by rewrite <- reverse_app, <- Hs, reverse_involutive.
Qed.

Lemma trimEnd_noLead s : noLead s → noLead (trimEnd s).
Proof.
  destruct (trimEnd_decomp s) as (w & _ & Hs). revert Hs.
  destruct (trimEnd s) as [|c t]; [done|]. by intros ->.
Qed.

Lemma trim_noLead s : noLead (trim s).
Proof. apply trimEnd_noLead, trimStart_noLead. Qed.

Lemma trim_noTrail s : noTrail (trim s).
Proof. apply trimEnd_noTrail. Qed.

(** [trim] removes a blank prefix and a blank suffix, and what is left
    is the string it was called on. *)
Lemma trim_decomp s : ∃ w1 w2, blank w1 ∧ blank w2 ∧ s = w1 ++ trim s ++ w2.
Proof.
  destruct (trimStart_decomp s) as (w1 & Hw1 & Hs).
  destruct (trimEnd_decomp (trimStart s)) as (w2 & Hw2 & Ht).
  exists w1, w2. split_and!; [done..|]. unfold trim. by rewrite <- Ht.
Qed.

(** A string that neither starts nor ends with white space is what
    [trim] gives back, whatever blank strings surround it. *)
Lemma trim_surrounded w1 s w2 :
  blank w1 → blank w2 → noLead s → noTrail s → trim (w1 ++ s ++ w2) = s.
Proof.
  intros Hw1 Hw2 Hl Ht. unfold trim. rewrite trimStart_blank_app by done.
  destruct s as [|c s]; simpl.
  - by rewrite trimStart_blank.
  - simpl in Hl. rewrite Hl.
    change (c :: s ++ w2) with ((c :: s) ++ w2).
    by rewrite trimEnd_blank_app, trimEnd_id.
Qed.

Lemma trim_id s : noLead s → noTrail s → trim s = s.
Proof.
  intros Hl Ht.
  pose proof (trim_surrounded [] s [] (Forall_nil_2 _) (Forall_nil_2 _) Hl Ht) as H.
  simpl in H. by rewrite app_nil_r in H.
Qed.

Lemma trim_trim s : trim (trim s) = trim s.
Proof. apply trim_id; [apply trim_noLead | apply trim_noTrail]. Qed.

Lemma trim_blank w : blank w → trim w = [].
Proof. intros Hw. unfold trim. by rewrite trimStart_blank. Qed.

(** A string without white space at all is its own [trim]. *)
Lemma trim_no_space s : Forall (λ c, isWhiteSpace c = false) s → trim s = s.
Proof.
  intros Hs. apply trim_id.
  - by destruct Hs.
  - unfold noTrail. apply Forall_reverse in Hs. by destruct Hs.
Qed.

(** [split] *)

Lemma split_nonempty sep s : split sep s ≠ [].
Proof.
  destruct s as [|c s]; simpl; [done|].
  destruct (c =? sep); [done|]. by destruct (split sep s).
Qed.

Lemma split_no_sep sep s : Forall (λ p, sep ∉ p) (split sep s).
Proof.
  induction s as [|c s IH]; simpl.
  - constructor; [apply not_elem_of_nil | done].
  - destruct (N.eqb_spec c sep) as [->|Hne].
    + constructor; [apply not_elem_of_nil | done].
    + destruct (split sep s) as [|p ps]; inversion IH; subst.
      * constructor; [|done]. by rewrite list_elem_of_singleton.
      * constructor; [|done]. apply not_elem_of_cons. by split.
Qed.

Lemma join_split sep s : join [sep] (split sep s) = s.
Proof.
  induction s as [|c s IH]; simpl; [done|].
  destruct (N.eqb_spec c sep) as [->|Hne].
  - pose proof (split_nonempty sep s).
    destruct (split sep s) as [|p ps] eqn:E; [done|].
    change (join [sep] ([] :: p :: ps)) with ([] ++ [sep] ++ join [sep] (p :: ps)).
    by rewrite IH.
  - destruct (split sep s) as [|p ps] eqn:E; [by apply split_nonempty in E|].
    rewrite <- IH. by destruct ps.
Qed.

Lemma split_app_sep sep p s :
  sep ∉ p → split sep (p ++ sep :: s) = p :: split sep s.
Proof.
  induction p as [|c p IH]; simpl; intros Hp.
  - by rewrite N.eqb_refl.
  - apply not_elem_of_cons in Hp as [Hc Hp].
    destruct (N.eqb_spec c sep) as [->|_]; [done|]. by rewrite IH.
Qed.

Lemma split_no_sep_id sep p : sep ∉ p → split sep p = [p].
Proof.
  induction p as [|c p IH]; simpl; intros Hp; [done|].
  apply not_elem_of_cons in Hp as [Hc Hp].
  destruct (N.eqb_spec c sep) as [->|_]; [done|]. by rewrite IH.
Qed.

(** Pieces without separator, joined and split again, come back. *)
Lemma split_join sep parts :
  parts ≠ [] → Forall (λ p, sep ∉ p) parts →
  split sep (join [sep] parts) = parts.
Proof.
  intros Hne Hparts. induction Hparts as [|p ps Hp Hps IH]; [done|].
  destruct ps as [|q ps].
  - simpl. by apply split_no_sep_id.
  - change (join [sep] (p :: q :: ps)) with (p ++ sep :: join [sep] (q :: ps)).
    rewrite split_app_sep by done. by rewrite IH.
Qed.

End StringFacts.

(** ** The e-mail predicate *)

Section EmailFacts.
Implicit Types (r : regex) (s : jsstring) (c : N).

Lemma in_class_app items1 items2 c :
  in_class (items1 ++ items2) c = in_class items1 c || in_class items2 c.
Proof. unfold in_class. apply existsb_app. Qed.

Lemma matches_alphabet r s :
  matches r s → Forall (λ c, in_class (alphabet r) c = true) s.
Proof.
  induction 1; simpl; rewrite ?in_class_app.
  - done.
  - by constructor.
  - apply Forall_app. split; (eapply Forall_impl; [eassumption|]);
      intros c; simpl; rewrite in_class_app, orb_true_iff; auto.
  - eapply Forall_impl; [eassumption|].
    intros c; simpl; rewrite in_class_app, orb_true_iff; auto.
  - eapply Forall_impl; [eassumption|].
    intros c; simpl; rewrite in_class_app, orb_true_iff; auto.
  - done.
  - apply Forall_app. by split.
Qed.

Lemma alphabet_emailPattern c :
  in_class (alphabet emailPattern) c = true → addressChar c = true.
Proof.
  unfold addressChar, specLocalChar, isLetter, isDigit.
  rewrite <- existsb_elem_of.
  vm_compute alphabet. unfold in_class. cbn [existsb in_item js fmap list_fmap
    list_ascii_of_string N_of_ascii ch].
  rewrite !orb_true_iff, !andb_true_iff, !N.eqb_eq, !N.leb_le.
  vm_compute N_of_ascii. vm_compute N_of_digits. lia.
Qed.

Lemma addressChar_plain c :
  addressChar c = true → isWhiteSpace c = false ∧ c ≠ ch ",".
Proof.
  unfold addressChar, specLocalChar, isLetter, isDigit, isWhiteSpace.
  rewrite <- existsb_elem_of. cbn [existsb js fmap list_fmap
    list_ascii_of_string].
  rewrite !orb_true_iff, !andb_true_iff, !N.eqb_eq, !N.leb_le.
  rewrite !orb_false_iff, !andb_false_iff, !N.eqb_neq, !N.leb_gt.
  vm_compute (ch _). vm_compute (N_of_ascii _). lia.
Qed.

(** What the pattern matches is made of address characters. *)
Lemma test_emailPattern_chars s :
  test emailPattern s = true → Forall (λ c, addressChar c = true) s.
Proof.
  intros Hs%test_matches%matches_alphabet.
  eapply Forall_impl; [exact Hs|]. apply alphabet_emailPattern.
Qed.

Lemma test_emailPattern_no_space s :
  test emailPattern s = true → Forall (λ c, isWhiteSpace c = false) s.
Proof.
  intros Hs%test_emailPattern_chars. eapply Forall_impl; [exact Hs|].
  by intros c [? _]%addressChar_plain.
Qed.

Lemma test_emailPattern_no_comma s :
  test emailPattern s = true → ch "," ∉ s.
Proof.
  intros Hs%test_emailPattern_chars Hin.
  rewrite Forall_forall in Hs. by apply Hs, addressChar_plain in Hin as [_ ?].
Qed.

Lemma isValidEmail_trim_eq s : isValidEmail s = isValidEmail (trim s).
Proof. unfold isValidEmail. by rewrite trim_trim. Qed.

Lemma isValidEmail_truthy s : isValidEmail s = true → truthy s = true.
Proof. by destruct s. Qed.

Lemma isValidEmail_no_comma s : isValidEmail s = true → ch "," ∉ s.
Proof.
  unfold isValidEmail. intros Hs Hin.
  destruct (trim_decomp s) as (w1 & w2 & Hw1 & Hw2 & Es).
  rewrite Es, !elem_of_app in Hin. destruct Hin as [Hin|[Hin|Hin]].
  - unfold blank in Hw1. rewrite Forall_forall in Hw1. by apply Hw1 in Hin.
  - by apply test_emailPattern_no_comma in Hs.
  - unfold blank in Hw2. rewrite Forall_forall in Hw2. by apply Hw2 in Hin.
Qed.

End EmailFacts.

(** ** The Composer: the tag input *)

Section TagInputFacts.
Import Composer.
Implicit Types (t : TagInput) (h : Home) (p : jsstring) (vs ps : list jsstring).

Lemma filter_filter {A} (f g : A → bool) (l : list A) :
  List.filter f (List.filter g l) = List.filter (λ x, f x && g x) l.
Proof.
  induction l as [|x l IH]; simpl; [done|].
  destruct (g x); simpl; rewrite ?andb_true_r, ?andb_false_r; [|done].
  destruct (f x); by rewrite IH.
Qed.

Lemma filter_ext_in' {A} (f g : A → bool) (l : list A) :
  (∀ x, x ∈ l → f x = g x) → List.filter f l = List.filter g l.
Proof.
  intros Hfg. apply List.filter_ext_in. intros x Hx. by apply Hfg, list_elem_of_In.
Qed.

Lemma elem_of_filter_bool {A} (f : A → bool) (l : list A) x :
  x ∈ List.filter f l ↔ x ∈ l ∧ f x = true.
Proof. by rewrite !list_elem_of_In, List.filter_In. Qed.

Lemma Forall_filter_bool {A} (P : A → Prop) (f : A → bool) (l : list A) :
  Forall P l → Forall P (List.filter f l).
Proof.
  rewrite !Forall_forall. intros Hl x [Hx _]%elem_of_filter_bool. auto.
Qed.

Lemma NoDup_filter_bool {A} (f : A → bool) (l : list A) :
  NoDup l → NoDup (List.filter f l).
Proof.
  induction 1 as [|x l Hx _ IH]; simpl; [constructor|].
  destruct (f x); [|done]. constructor; [|done].
  by intros [? _]%elem_of_filter_bool.
Qed.

Lemma elem_of_nub l p : p ∈ nub l ↔ p ∈ l.
Proof.
  induction l as [|q l IH]; simpl; [done|].
  rewrite !elem_of_cons, elem_of_filter_bool, IH, negb_true_iff,
    bool_decide_eq_false.
  destruct (decide (p = q)); tauto.
Qed.

Lemma NoDup_nub l : NoDup (nub l).
Proof.
  induction l as [|q l IH]; simpl; constructor.
  - rewrite elem_of_filter_bool, negb_true_iff, bool_decide_eq_false. tauto.
  - by apply NoDup_filter_bool.
Qed.

(** The loop of [add]: the new first occurrences are appended. *)
Lemma add_loop vs ps :
  foldl (λ next p,
           if isValidEmail p && negb (bool_decide (p ∈ next))
           then next ++ [p] else next) vs ps
  = vs ++ List.filter (isNewIn vs) (nub ps).
Proof.
  revert vs. induction ps as [|p ps IH]; intros vs; simpl.
  - by rewrite app_nil_r.
  - rewrite IH. fold (isNewIn vs p). rewrite filter_filter.
    destruct (isNewIn vs p) eqn:Hp.
    + rewrite <- app_assoc. simpl. do 2 f_equal.
      apply filter_ext_in'. intros q _. unfold isNewIn.
      rewrite <- andb_assoc. f_equal. rewrite <- negb_orb. f_equal.
      rewrite <- bool_decide_or. apply bool_decide_ext.
      by rewrite elem_of_app, list_elem_of_singleton.
    + f_equal. apply filter_ext_in'. intros q _.
      destruct (decide (q = p)) as [->|Hne].
      * by rewrite Hp.
      * by rewrite (bool_decide_eq_false_2 _ Hne), andb_true_r.
Qed.

Lemma add_values t :
  values (add t) = values t ++ List.filter (isNewIn (values t)) (nub (piecesOf (input t))).
Proof.
  unfold add. fold (piecesOf (input t)).
  destruct (piecesOf (input t)) as [|p ps] eqn:E; simpl length; cbn [Nat.eqb].
  - simpl. by rewrite app_nil_r.
  - cbn [values]. apply add_loop.
Qed.



Lemma filter_none {A} (f : A → bool) (l : list A) :
  (∀ x, x ∈ l → f x = false) → List.filter f l = [].
Proof.
  induction l as [|x l IH]; simpl; intros Hl; [done|].
  rewrite (Hl x) by left. apply IH. intros y Hy. apply Hl. by right.
Qed.

Lemma filter_all {A} (f : A → bool) (l : list A) :
  (∀ x, x ∈ l → f x = true) → List.filter f l = l.
Proof.
  induction l as [|x l IH]; simpl; intros Hl; [done|].
  rewrite (Hl x) by left. f_equal. apply IH. intros y Hy. apply Hl. by right.
Qed.

(** The pieces of a text are trimmed and not empty. *)
Lemma elem_of_piecesOf text p :
  p ∈ piecesOf text ↔ p ≠ [] ∧ ∃ x, x ∈ split (ch ",") text ∧ p = trim x.
Proof.
  unfold piecesOf. rewrite elem_of_filter_bool, list_elem_of_fmap.
  split.
  - intros [(x & -> & Hx) Hp]. split; [by destruct (trim x) | eauto].
  - intros [Hp (x & Hx & ->)]. split; [eauto | by destruct (trim x)].
Qed.

Lemma piecesOf_trimmed text p : p ∈ piecesOf text → trim p = p.
Proof. intros [_ (x & _ & ->)]%elem_of_piecesOf. apply trim_trim. Qed.

(** A valid address that is trimmed is the one piece of itself. *)
Lemma piecesOf_address p : test emailPattern p = true → piecesOf p = [p].
Proof.
  intros Hp. unfold piecesOf.
  rewrite split_no_sep_id by by apply test_emailPattern_no_comma.
  simpl. rewrite trim_no_space by by apply test_emailPattern_no_space.
  by destruct p.
Qed.

End TagInputFacts.

(** ** The Composer: what the tag input keeps *)

Section TagInputTheorems.
Import Composer.
Implicit Types (t : TagInput) (h : Home) (p v : jsstring) (vs ps : list jsstring).

Lemma forallb_Forall {A} (f : A → bool) (l : list A) :
  forallb f l = true ↔ Forall (λ x, f x = true) l.
Proof.
  rewrite List.forallb_forall, Forall_forall.
  by setoid_rewrite list_elem_of_In.
Qed.

(** An input without a non-blank piece is no commit at all: neither the
    list nor the text box changes. Any other input empties the text
    box. *)
Theorem add_input t :
  add t = t ∧ piecesOf (input t) = [] ∨
  input (add t) = [] ∧ piecesOf (input t) ≠ [].
Proof.
  unfold add. fold (piecesOf (input t)).
  destruct (piecesOf (input t)) as [|p ps]; simpl; [by left | by right].
Qed.

(** [add] keeps a list of valid addresses valid, so that the warning
    under the tags stays hidden. *)
Theorem add_keeps_valid t :
  showsInvalidWarning t = false → showsInvalidWarning (add t) = false.
Proof.
  unfold showsInvalidWarning. rewrite !negb_false_iff, !forallb_Forall.
  intros Ht. rewrite add_values. apply Forall_app. split; [done|].
  apply Forall_forall. intros p [_ Hp]%elem_of_filter_bool.
  unfold isNewIn in Hp. by apply andb_true_iff in Hp as [Hp _].
Qed.

(** [add] keeps a list without duplicates free of duplicates. *)
Theorem add_keeps_NoDup t : NoDup (values t) → NoDup (values (add t)).
Proof.
  intros Ht. rewrite add_values. apply NoDup_app. split_and!; [done| |].
  - intros p Hp [_ Hnew]%elem_of_filter_bool. unfold isNewIn in Hnew.
    apply andb_true_iff in Hnew as [_ Hnew].
    apply negb_true_iff, bool_decide_eq_false in Hnew. done.
  - apply NoDup_filter_bool, NoDup_nub.
Qed.

(** What [add] appends matches the pattern as it stands: it carries no
    white space around it and no comma. *)
Theorem add_appends_addresses t p :
  p ∈ values (add t) → p ∉ values t → test emailPattern p = true.
Proof.
  rewrite add_values, elem_of_app. intros [Hp|Hp] Hnot; [done|].
  apply elem_of_filter_bool in Hp as [Hp Hnew]. rewrite elem_of_nub in Hp.
  unfold isNewIn in Hnew. apply andb_true_iff in Hnew as [Hv _].
  unfold isValidEmail in Hv. by rewrite (piecesOf_trimmed _ _ Hp) in Hv.
Qed.

(** Committing the same text a second time adds nothing. *)
Theorem add_twice t text :
  values (add (setInput text (add (setInput text t))))
  = values (add (setInput text t)).
Proof.
  rewrite (add_values (setInput text (add _))). cbn [setInput input values].
  rewrite filter_none; [by rewrite app_nil_r|].
  intros q Hq. unfold isNewIn at 1.
  destruct (isValidEmail q) eqn:Hv; [|done]. simpl.
  apply negb_false_iff, bool_decide_eq_true.
  rewrite add_values. cbn [setInput input values]. apply elem_of_app.
  destruct (decide (q ∈ values t)) as [?|Hnot]; [by left|]. right.
  apply elem_of_filter_bool. split; [done|]. unfold isNewIn. rewrite Hv. simpl.
  by apply negb_true_iff, bool_decide_eq_false.
Qed.

(** The remove button takes the tag out and leaves the others. *)
Theorem remove_spec v t p :
  p ∈ values (remove v t) ↔ p ∈ values t ∧ p ≠ v.
Proof.
  unfold remove. cbn [values].
  by rewrite elem_of_filter_bool, negb_true_iff, bool_decide_eq_false.
Qed.

(** Removing a tag that was just committed gives the list back. *)
Theorem remove_add v t :
  test emailPattern v = true → v ∉ values t →
  values (remove v (add (setInput v t))) = values t.
Proof.
  intros Hv Hnot. unfold remove. cbn [values]. rewrite add_values.
  cbn [setInput input values]. rewrite (piecesOf_address v Hv). simpl.
  assert (isNewIn (values t) v = true) as ->.
  { unfold isNewIn, isValidEmail.
    rewrite trim_no_space by by apply test_emailPattern_no_space.
    rewrite Hv. simpl. by apply negb_true_iff, bool_decide_eq_false. }
  rewrite List.filter_app. simpl. rewrite bool_decide_eq_true_2 by done. simpl.
  rewrite app_nil_r. apply filter_all. intros x Hx.
  apply negb_true_iff, bool_decide_eq_false. by intros ->.
Qed.

Lemma remove_add_witness :
  values (remove (js "x@y.com")
            (add (setInput (js "x@y.com")
                    {| values := [js "a@b.co"]; input := [] |})))
  = [js "a@b.co"].
Proof.
  apply (remove_add (js "x@y.com") {| values := [js "a@b.co"]; input := [] |}).
  - vm_compute. reflexivity.
  - apply (bool_decide_unpack _). vm_compute. exact I.
Defined.

End TagInputTheorems.

(** ** The Composer: the form *)

Section HomeFacts.
Import Composer.
Implicit Types (h : Home) (p : jsstring) (fetch : Request → Thrown + Response).

Lemma canSubmit_iff h :
  canSubmit h = true ↔
  isValidEmail (from h) = true ∧ to h ≠ [] ∧
  Forall (λ p, isValidEmail p = true) (to h) ∧ trim (subject h) ≠ [].
Proof.
  unfold canSubmit. rewrite !andb_true_iff, forallb_Forall, !Nat.ltb_lt.
  assert (Hlen : ∀ {A} (l : list A), (0 < length l)%nat ↔ l ≠ []).
  { intros A [|x l]; simpl; split; (done || lia). }
  rewrite !Hlen. tauto.
Qed.

(** The entries of the form that [onSubmit] builds, in order. *)
Lemma buildForm_entries h :
  buildForm h =
  [(js "from", EString (from h)); (js "to", EString (join (js ",") (to h)));
   (js "subject", EString (subject h)); (js "bodyHtml", EString (bodyHtml h))]
  ++ ((λ f, (js "attachments", EFile f)) <$> default [] (files h)).
Proof.
  unfold buildForm.
  assert (Hfold : ∀ fs form,
    foldl (λ form f, form_append (js "attachments") (EFile f) form) form fs
    = form ++ ((λ f, (js "attachments", EFile f)) <$> fs)).
  { induction fs as [|f fs IH]; intros form; simpl; [by rewrite app_nil_r|].
    rewrite IH. unfold form_append. by rewrite <- app_assoc. }
  set (form4 := form_set (js "bodyHtml") _ _).
  assert (Hsets : form4 =
    [(js "from", EString (from h)); (js "to", EString (join (js ",") (to h)));
     (js "subject", EString (subject h)); (js "bodyHtml", EString (bodyHtml h))])
    by reflexivity.
  clearbody form4. subst form4.
  destruct (files h) as [[|f fs]|]; cbn [length Nat.ltb Nat.leb]; rewrite ?Hfold;
    reflexivity.
Qed.

Lemma onSubmit_requests fetch h :
  (onSubmit fetch h).2 =
  if canSubmit h
  then [{| url := js "/api/send-email"; method := js "POST";
           body := buildForm h |}]
  else [].
Proof. unfold onSubmit, onSubmit_start. by destruct (canSubmit h). Qed.


(** [onSubmit] issues one request when [canSubmit] holds and none
    otherwise: a POST to the Dispatcher whose form carries the sender,
    the recipients joined by commas, the subject and the body, and then
    one [attachments] entry for each chosen file, in order. *)
Theorem onSubmit_request fetch h :
  (onSubmit fetch h).2 =
  if canSubmit h then
    [{| url := js "/api/send-email"; method := js "POST";
        body :=
          [(js "from", EString (from h));
           (js "to", EString (join (js ",") (to h)));
           (js "subject", EString (subject h));
           (js "bodyHtml", EString (bodyHtml h))]
          ++ ((λ f, (js "attachments", EFile f)) <$> default [] (files h)) |}]
  else [].
Proof. by rewrite onSubmit_requests, buildForm_entries. Qed.

(** The submit button is enabled exactly when [canSubmit] holds and no
    submission is under way; while [onSubmit] awaits the answer the
    button is disabled. *)
Theorem submitDisabled_spec h :
  (submitDisabled h = false ↔ canSubmit h = true ∧ isSending h = false) ∧
  (∀ h1 req, onSubmit_start h = Some (h1, req) → submitDisabled h1 = true).
Proof.
  split.
  - unfold submitDisabled. rewrite orb_false_iff, negb_false_iff. done.
  - unfold onSubmit_start. intros h1 req.
    destruct (negb (canSubmit h)); [done|]. intros [= <- _].
    unfold submitDisabled. cbn [isSending]. apply orb_true_r.
Qed.

(** A sender that lets the form be submitted raises no warning. *)
Theorem canSubmit_no_warning h :
  canSubmit h = true →
  showsFromWarning h = false ∧
  Composer.showsInvalidWarning {| values := to h; input := [] |} = false.
Proof.
  intros (Hfrom & _ & Hto & _)%canSubmit_iff.
  unfold showsFromWarning, showsInvalidWarning. cbn [values].
  rewrite Hfrom, andb_false_r. split; [done|].
  by apply negb_false_iff, forallb_Forall.
Qed.

Lemma canSubmit_no_warning_witness :
  showsFromWarning exampleHome = false ∧
  Composer.showsInvalidWarning
    {| values := to exampleHome; input := [] |} = false.
Proof. apply (canSubmit_no_warning exampleHome). vm_compute. reflexivity. Defined.

(** A submission ends with [isSending] reset and a status set, and
    leaves the fields of the form as they were; the status is a success
    exactly when [fetch] resolves with an [ok] response whose body
    parses. *)
Theorem onSubmit_outcome fetch h :
  canSubmit h = true →
  let h' := (onSubmit fetch h).1 in
  let req := {| url := js "/api/send-email"; method := js "POST";
                body := buildForm h |} in
  isSending h' = false ∧
  from h' = from h ∧ to h' = to h ∧ subject h' = subject h ∧
  ∃ st, status h' = Some st ∧
    (kind st = success ↔
     ∃ res data, fetch req = inr res ∧ ok res = true ∧ json res = inr data).
Proof.
  intros Hcan. unfold onSubmit, onSubmit_start. rewrite Hcan. cbn [negb fst].
  unfold onSubmit_finish.
  destruct (fetch _) as [err|[okb [err|data]]]; cbn [json ok];
    [| |destruct okb; cbn [negb]];
    (split_and!; [done..|]); eexists; (split; [reflexivity|]); cbn [kind].
  - split; [done | by intros (? & ? & ? & _)].
  - split; [done | intros (? & ? & [= <-] & _ & ?); done].
  - split; [eauto|done].
  - split; [done | intros (? & ? & [= <-] & ? & _); done].
Qed.

Lemma onSubmit_outcome_witness :
  isSending (onSubmit exampleRefusal exampleHome).1 = false.
Proof.
  apply (onSubmit_outcome exampleRefusal exampleHome). vm_compute. reflexivity.
Defined.



End HomeFacts.
(** ** The Dispatcher: parsing *)

Section ParseFacts.
Import Dispatcher.
Context `{Platform}.
Implicit Types (req : NextRequest) (form : FormData) (env : Env)
  (v : Value) (l : list jsstring).

Lemma parseCommaOrArray_string s :
  parseCommaOrArray (ValueEntry (EString s)) = piecesOf s.
Proof. by destruct s. Qed.

Lemma split_app_sep_all sep p s :
  split sep (p ++ sep :: s) = split sep p ++ split sep s.
Proof.
  induction p as [|c p IH]; simpl.
  - by rewrite N.eqb_refl.
  - rewrite IH. destruct (c =? sep); [done|].
    pose proof (split_nonempty sep p). by destruct (split sep p).
Qed.

Lemma split_join_concat sep parts :
  parts ≠ [] → split sep (join [sep] parts) = concat (split sep <$> parts).
Proof.
  intros Hne. induction parts as [|p ps IH]; [done|].
  destruct ps as [|q ps].
  - simpl. by rewrite app_nil_r.
  - change (join [sep] (p :: q :: ps)) with (p ++ sep :: join [sep] (q :: ps)).
    rewrite split_app_sep_all, IH by done. done.
Qed.

Lemma parse_attachments_loop entries acc :
  foldl (λ attachments entry,
           match entry with
           | EFile f =>
               attachments ++
               [{| filename := Some (JString (name f)); content := bytes f;
                   contentType := if truthy (type f)
                                  then Some (JString (type f)) else None |}]
           | EString _ => attachments
           end) acc entries
  = acc ++ (attachmentOfFile <$>
              omap (λ e, match e with EFile f => Some f | EString _ => None end)
                   entries).
Proof.
  revert acc. induction entries as [|[s|f] entries IH]; intros acc; simpl.
  - by rewrite app_nil_r.
  - apply IH.
  - rewrite IH. by rewrite <- app_assoc.
Qed.

(** What [parseRequest] makes of a multipart request. *)
Lemma parseRequest_multipart req form :
  isMultipart req = true → formData req = inr form →
  parseRequest req =
  inr (typedFields
         (stringOrEmpty (form_get (js "from") form))
         (parseCommaOrArray (toCommaOrArray (form_get (js "to") form)))
         (stringOrEmpty (form_get (js "subject") form))
         (stringOrEmpty (form_get (js "bodyHtml") form)),
       attachmentOfFile <$> uploadedFiles form).
Proof.
  intros Hm Hf. unfold parseRequest. rewrite Hm, Hf.
  by rewrite parse_attachments_loop.
Qed.

(** A body that is [null] stops the JSON branch at its first read. *)
Lemma parseRequest_json_null req :
  isMultipart req = false → json req = Some JNull →
  parseRequest req = inl (typeError (ReadOfNull "from")).
Proof. intros Hm Hj. unfold parseRequest. by rewrite Hm, Hj. Qed.

(** The checks of [POST] on fields of the declared types. *)
Lemma everyValid_strings l :
  everyValid (JString <$> l) = inr (forallb isValidEmail l).
Proof.
  induction l as [|p l IH]; csimpl; [done|].
  destruct (isValidEmail p); [exact IH | done].
Qed.

Lemma fromRejected_typed f l s b :
  fromRejected (typedFields f l s b) = inr (negb (truthy f && isValidEmail f)).
Proof.
  unfold fromRejected, typedFields. cbn [from truthyValue isValidEmailOf].
  by destruct (truthy f).
Qed.

Lemma toRejected_typed f l s b :
  toRejected (typedFields f l s b)
  = inr (negb ((0 <? length l)%nat && forallb isValidEmail l)).
Proof.
  unfold toRejected, typedFields. cbn [to lengthTruthy everyOf].
  rewrite length_fmap, everyValid_strings. by destruct (0 <? length l)%nat.
Qed.

Lemma everyValid_true items :
  everyValid items = inr true →
  ∃ l, items = JString <$> l ∧ Forall (λ p, isValidEmail p = true) l.
Proof.
  induction items as [|v items IH]; simpl; intros Hv; [by exists []|].
  destruct v as [|b|n|s|vs|ms]; simpl in Hv; try done.
  destruct (isValidEmail s) eqn:Hs; [|done].
  destruct (IH Hv) as (l & -> & Hl). exists (s :: l). split; [done|].
  by constructor.
Qed.

(** Fields that pass the two checks have the declared types. *)
Lemma fromRejected_false fields :
  fromRejected fields = inr false →
  ∃ f, from fields = JString f ∧ f ≠ [] ∧ isValidEmail f = true.
Proof.
  unfold fromRejected.
  destruct (from fields) as [|b|n|s|vs|ms]; simpl; try done.
  - by destruct b.
  - by destruct (numberTruthy n).
  - destruct s as [|c s]; [done|]. simpl.
    destruct (isValidEmail (c :: s)) eqn:Hs; [|done]. intros _. by eexists.
Qed.

Lemma toRejected_false_strings fields :
  toRejected fields = inr false →
  ∃ l, to fields = JArray (JString <$> l) ∧ l ≠ [] ∧
       Forall (λ p, isValidEmail p = true) l.
Proof.
  unfold toRejected.
  destruct (to fields) as [|b|n|s|items|ms]; simpl; try done.
  - by destruct (truthy s).
  - destruct items as [|v items]; [done|]. cbn [length Nat.ltb Nat.leb].
    destruct (everyValid (v :: items)) as [err|[|]] eqn:Hv; try done.
    intros _. apply everyValid_true in Hv as (l & Hl & Hvalid).
    exists l. split_and!; [by rewrite Hl | by destruct l | done].
  - by destruct (truthyValue _).
Qed.

Lemma joinRecipients_strings l :
  joinRecipients (JArray (JString <$> l)) = join (js ",") l.
Proof.
  unfold joinRecipients. f_equal. rewrite <- list_fmap_compose.
  by rewrite <- (list_fmap_id l) at 2.
Qed.

End ParseFacts.
(** ** The Dispatcher: the handler *)

Section PostFacts.
Import Dispatcher.
Context `{Platform}.
Implicit Types (req : NextRequest) (env : Env) (fields : ParsedEmailFields)
  (attachments : list Attachment)
  (sendMail : TransportOptions → MailOptions → Thrown + SentMessageInfo).

Lemma truthy_or_empty (s : jsstring) : (if truthy s then s else []) = s.
Proof. by destruct s. Qed.

(** [POST], step by step. *)
Lemma POST_steps env sendMail req :
  POST env sendMail req =
  match parseRequest req with
  | inl err => POST_catch err
  | inr (fields, attachments) =>
      match fromRejected fields with
      | inl err => POST_catch err
      | inr true => (errorResponse 400 "Valid 'from' email is required", [])
      | inr false =>
      match toRejected fields with
      | inl err => POST_catch err
      | inr true =>
          (errorResponse 400 "Provide at least one valid 'to' email", [])
      | inr false =>
          if negb (configured env) then
            (errorResponse 500
               "SMTP credentials are not configured on the server",
             [ConsoleLog (loggedConfig env)])
          else
            let options := transportOptions env in
            let mail := mailOptions fields attachments in
            let events := [ConsoleLog (loggedConfig env);
                           CreateTransport options; SendMail options mail] in
            match sendMail options mail with
            | inr info =>
                ({| status := 200; body := SentBody true (messageId info) |},
                 events)
            | inl err => ((POST_catch err).1, events ++ (POST_catch err).2)
            end
      end end
  end.
Proof.
  unfold POST, POST_try.
  destruct (parseRequest req) as [err|[fields attachments]]; [done|].
  destruct (fromRejected fields) as [err|[|]]; [done..|].
  destruct (toRejected fields) as [err|[|]]; [done..|].
  unfold configured, loggedConfig, transportOptions, mailOptions, errorResponse.
  destruct (env !! "SMTP_HOST") as [host|]; [|done].
  destruct (env !! "SMTP_USER") as [user|]; [|by rewrite andb_false_r].
  destruct (env !! "SMTP_PASS") as [pass|]; [|by rewrite andb_false_r].
  cbn [isSet default from_option id]. rewrite !negb_andb.
  destruct (negb (truthy host) || negb (truthy user) || negb (truthy pass));
    [done|].
  by destruct (sendMail _ _).
Qed.

Lemma POST_accepted env sendMail req fields attachments :
  parseRequest req = inr (fields, attachments) →
  fromRejected fields = inr false → toRejected fields = inr false →
  configured env = true →
  POST env sendMail req =
  let options := transportOptions env in
  let mail := mailOptions fields attachments in
  let events := [ConsoleLog (loggedConfig env); CreateTransport options;
                 SendMail options mail] in
  match sendMail options mail with
  | inr info =>
      ({| status := 200; body := SentBody true (messageId info) |}, events)
  | inl err => ((POST_catch err).1, events ++ (POST_catch err).2)
  end.
Proof. intros Hp Hf Ht Hc. by rewrite POST_steps, Hp, Hf, Ht, Hc. Qed.

End PostFacts.
(** ** The Dispatcher: recipients *)

Section RecipientFacts.
Import Dispatcher.
Implicit Types (p : jsstring) (l : list jsstring) (value : CommaOrArray).

Lemma piecesOf_concat (ls : list (list jsstring)) :
  List.filter truthy (trim <$> concat ls)
  = concat ((λ l, List.filter truthy (trim <$> l)) <$> ls).
Proof.
  induction ls as [|l ls IH]; simpl; [done|].
  by rewrite fmap_app, List.filter_app, IH.
Qed.

Lemma parseCommaOrArray_in value p :
  p ∈ parseCommaOrArray value → p ≠ [] ∧ ∃ x, (ch "," ∉ x) ∧ p = trim x.
Proof.
  assert (Hpieces : ∀ text, p ∈ piecesOf text →
            p ≠ [] ∧ ∃ x, (ch "," ∉ x) ∧ p = trim x).
  { intros text [Hp (x & Hx & ->)]%elem_of_piecesOf. split; [done|].
    exists x. split; [|done].
    pose proof (split_no_sep (ch ",") text) as Hs.
    rewrite Forall_forall in Hs. by apply Hs. }
  destruct value as [|[s|f]|items].
  - by intros ?%elem_of_nil.
  - rewrite parseCommaOrArray_string. apply Hpieces.
  - apply (Hpieces []).
  - unfold parseCommaOrArray.
    rewrite piecesOf_concat, list_elem_of_In, in_concat.
    intros (l & Hl%list_elem_of_In & Hp%list_elem_of_In).
    apply list_elem_of_fmap in Hl as (l' & -> & Hl').
    apply list_elem_of_fmap in Hl' as (s & -> & _).
    by apply (Hpieces s).
Qed.


Lemma elem_of_trim c (s : jsstring) : c ∈ trim s → c ∈ s.
Proof.
  intros Hc. destruct (trim_decomp s) as (w1 & w2 & _ & _ & Es).
  rewrite Es, !elem_of_app. auto.
Qed.

Lemma piecesOf_join_valid l :
  Forall (λ p, isValidEmail p = true) l →
  piecesOf (join (js ",") l) = trim <$> l.
Proof.
  intros Hl. destruct (decide (l = [])) as [->|Hne]; [done|].
  unfold piecesOf. change (js ",") with [ch ","].
  rewrite split_join; [|done|].
  - apply filter_all. intros p (q & -> & Hq)%list_elem_of_fmap.
    rewrite Forall_forall in Hl. apply Hl in Hq.
    unfold isValidEmail in Hq. by destruct (trim q).
  - eapply Forall_impl; [exact Hl|]. apply isValidEmail_no_comma.
Qed.

(** The entries that [parseCommaOrArray] gives are not empty, carry no
    white space around them and no comma. *)
Theorem parseCommaOrArray_entries value :
  Forall (λ p, p ≠ [] ∧ trim p = p ∧ ch "," ∉ p) (parseCommaOrArray value).
Proof.
  apply Forall_forall. intros p (Hp & x & Hx & ->)%parseCommaOrArray_in.
  split_and!; [done | apply trim_trim |]. by intros ?%elem_of_trim.
Qed.

(** The branch for arrays treats a list of strings as the other branch
    treats the strings joined by commas. *)
Theorem parseCommaOrArray_array_join l :
  parseCommaOrArray (ValueArray (ItemString <$> l))
  = parseCommaOrArray (ValueEntry (EString (join (js ",") l))).
Proof.
  rewrite parseCommaOrArray_string. unfold parseCommaOrArray, piecesOf.
  assert (Hid : (λ v, match v with ItemString s => s | ItemOther => [] end)
                  <$> (ItemString <$> l) = l).
  { induction l as [|p l IH]; csimpl; [done | by rewrite IH]. }
  rewrite Hid. destruct (decide (l = [])) as [->|Hne]; [done|].
  change (js ",") with [ch ","]. by rewrite split_join_concat.
Qed.

(** Addresses joined by commas are parsed back: each comes back
    trimmed, and as it stands when it matches the pattern as it
    stands. *)
Theorem parseCommaOrArray_join_addresses l :
  Forall (λ p, isValidEmail p = true) l →
  parseCommaOrArray (ValueEntry (EString (join (js ",") l))) = trim <$> l ∧
  (Forall (λ p, test emailPattern p = true) l →
   parseCommaOrArray (ValueEntry (EString (join (js ",") l))) = l).
Proof.
  intros Hl. rewrite parseCommaOrArray_string, piecesOf_join_valid by done.
  split; [done|]. intros Hexact. clear Hl.
  induction Hexact as [|p l Hp _ IH]; csimpl; [done|].
  by rewrite IH, trim_no_space by by apply test_emailPattern_no_space.
Qed.

Lemma parseCommaOrArray_join_addresses_witness :
  parseCommaOrArray
    (ValueEntry (EString (join (js ",") [js "a@x.com"; js "b@x.com"])))
  = [js "a@x.com"; js "b@x.com"].
Proof.
  apply (parseCommaOrArray_join_addresses [js "a@x.com"; js "b@x.com"]).
  - repeat constructor.
  - repeat constructor.
Defined.

End RecipientFacts.
(** ** The Dispatcher: what the handler does *)

Section PostTheorems.
Import Dispatcher.
Context `{Platform}.
Implicit Types (req : NextRequest) (env : Env) (fields : ParsedEmailFields)
  (attachments : list Attachment)
  (sendMail : TransportOptions → MailOptions → Thrown + SentMessageInfo).

(** [POST] hands at most one mail to the transport, after the
    configuration was logged and a transport was made, and only when
    both checks passed and the credentials are set; the mail carries the
    parsed fields, the recipients joined by commas, and the parsed
    attachments. *)
Theorem POST_events env sendMail req :
  let events := (POST env sendMail req).2 in
  let log := ConsoleLog (loggedConfig env) in
  events = [] ∨ (∃ err, events = [ConsoleError err]) ∨ events = [log] ∨
  ∃ fields attachments,
    parseRequest req = inr (fields, attachments) ∧
    fromRejected fields = inr false ∧ toRejected fields = inr false ∧
    configured env = true ∧
    let sent := [log; CreateTransport (transportOptions env);
                 SendMail (transportOptions env)
                          (mailOptions fields attachments)] in
    (events = sent ∨ ∃ err, events = sent ++ [ConsoleError err]).
Proof.
  cbv zeta. rewrite POST_steps.
  destruct (parseRequest req) as [err|[fields attachments]] eqn:Hp;
    [right; left; by exists err|].
  destruct (fromRejected fields) as [err|[|]] eqn:Hf;
    [right; left; by exists err | by left |].
  destruct (toRejected fields) as [err|[|]] eqn:Ht;
    [right; left; by exists err | by left |].
  destruct (configured env) eqn:Hc; [|by right; right; left].
  right; right; right. exists fields, attachments. split_and!; [done..|].
  cbn [negb]. destruct (sendMail _ _) as [err|info]; [right; by exists err | by left].
Qed.

(** The answers of [POST] are 200, 400 and 500, and a 200 is the answer
    exactly when the transport took the mail; it then carries the
    [messageId] that the transport gave. *)
Theorem POST_answer env sendMail req :
  let response := (POST env sendMail req).1 in
  (status response = 200 ∨ status response = 400 ∨ status response = 500) ∧
  (status response = 200 ↔
   ∃ fields attachments info,
     parseRequest req = inr (fields, attachments) ∧
     fromRejected fields = inr false ∧ toRejected fields = inr false ∧
     configured env = true ∧
     sendMail (transportOptions env) (mailOptions fields attachments)
       = inr info ∧
     body response = SentBody true (messageId info)).
Proof.
  cbv zeta. rewrite POST_steps.
  destruct (parseRequest req) as [err|[fields attachments]] eqn:Hp.
  { split; [by right; right|]. split; [done | by intros (? & ? & ? & ? & _)]. }
  destruct (fromRejected fields) as [err|[|]] eqn:Hf.
  1,2: split; [(by right; right) || (by right; left)|]; split; [done|];
    intros (? & ? & ? & [= <- <-] & ? & _); congruence.
  destruct (toRejected fields) as [err|[|]] eqn:Ht.
  1,2: split; [(by right; right) || (by right; left)|]; split; [done|];
    intros (? & ? & ? & [= <- <-] & _ & ? & _); congruence.
  destruct (configured env) eqn:Hc; cbn [negb].
  2:{ split; [by right; right|]. split; [done|].
      by intros (? & ? & ? & [= <- <-] & _ & _ & ? & _). }
  destruct (sendMail _ _) as [err|info] eqn:Hs.
  - split; [by right; right|]. split; [done|].
    intros (? & ? & ? & [= <- <-] & _ & _ & _ & Hs' & _). congruence.
  - split; [by left|]. split; [|done]. intros _.
    exists fields, attachments, info. done.
Qed.

(** A transport that refuses the mail makes a 500 with the message of
    the error, or with a fixed text when what was thrown is no error; the
    failure is printed. *)
Theorem POST_transport_failure env sendMail req fields attachments err :
  parseRequest req = inr (fields, attachments) →
  fromRejected fields = inr false → toRejected fields = inr false →
  configured env = true →
  sendMail (transportOptions env) (mailOptions fields attachments) = inl err →
  POST env sendMail req =
  ({| status := 500;
      body := ErrorBody match err with
                        | ThrownError m => m
                        | ThrownOther =>
                            js "Unexpected error while sending email"
                        end |},
   [ConsoleLog (loggedConfig env); CreateTransport (transportOptions env);
    SendMail (transportOptions env) (mailOptions fields attachments);
    ConsoleError err]).
Proof.
  intros Hp Hf Ht Hc Hs. rewrite (POST_accepted _ _ _ _ _ Hp Hf Ht Hc).
  cbv zeta. by rewrite Hs.
Qed.

(** A multipart request whose form cannot be read makes a 500 with the
    message of the error, and nothing but the printing of the failure
    happens. *)
Theorem POST_form_failure env sendMail req err :
  isMultipart req = true → formData req = inl err →
  POST env sendMail req =
  ({| status := 500;
      body := ErrorBody match err with
                        | ThrownError m => m
                        | ThrownOther =>
                            js "Unexpected error while sending email"
                        end |},
   [ConsoleError err]).
Proof.
  intros Hm Hf. rewrite POST_steps. unfold parseRequest. by rewrite Hm, Hf.
Qed.

(** A credential that is set to the empty string counts as missing: the
    answer is the 500 of the configuration, after the log line and
    without a transport. *)
Theorem POST_not_configured env sendMail req fields attachments :
  parseRequest req = inr (fields, attachments) →
  fromRejected fields = inr false → toRejected fields = inr false →
  (isSet (env !! "SMTP_HOST") = false ∨ isSet (env !! "SMTP_USER") = false
   ∨ isSet (env !! "SMTP_PASS") = false) →
  POST env sendMail req =
  (errorResponse 500 "SMTP credentials are not configured on the server",
   [ConsoleLog (loggedConfig env)]).
Proof.
  intros Hp Hf Ht Hc. rewrite POST_steps, Hp, Hf, Ht.
  assert (configured env = false) as ->; [|done].
  unfold configured. destruct Hc as [-> | [-> | ->]];
    by rewrite ?andb_false_r.
Qed.

(** When the parsed fields have the declared types, a sender that is
    empty or fails the e-mail predicate, or a list of recipients that is
    empty or has an entry that fails it, is answered 400 with an error
    that names the field, ['from'] when the sender offends and ['to']
    otherwise, and nothing else happens. *)
Theorem POST_typed_validation env sendMail req attachments
    (f : jsstring) (l : list jsstring) (s b : jsstring) :
  parseRequest req = inr (typedFields f l s b, attachments) →
  f = [] ∨ isValidEmail f = false ∨
  l = [] ∨ Exists (λ p, isValidEmail p = false) l →
  POST env sendMail req =
  ({| status := 400;
      body := ErrorBody
                (if truthy f && isValidEmail f
                 then js "Provide at least one valid 'to' email"
                 else js "Valid 'from' email is required") |}, []).
Proof.
  intros Hp Hbad. rewrite POST_steps, Hp, fromRejected_typed, toRejected_typed.
  destruct (truthy f && isValidEmail f) eqn:Hf; [|done]. cbn [negb].
  apply andb_true_iff in Hf as [Hf1 Hf2].
  assert ((0 <? length l)%nat && forallb isValidEmail l = false) as ->; [|done].
  destruct Hbad as [Hb|[Hb|[Hb|Hb]]].
  - by rewrite Hb in Hf1.
  - congruence.
  - by rewrite Hb.
  - apply andb_false_iff. right. apply not_true_is_false.
    rewrite forallb_Forall. intros Hall.
    apply Exists_exists in Hb as (p & Hin & Hp').
    rewrite Forall_forall in Hall. apply Hall in Hin. congruence.
Qed.

(** A JSON body that is [null] is answered 500: reading its [from] is a
    [TypeError], which is printed. *)
Theorem POST_null_body env sendMail req :
  isMultipart req = false → json req = Some JNull →
  POST env sendMail req = typeErrorAnswer (ReadOfNull "from").
Proof.
  intros Hm Hj. by rewrite POST_steps, parseRequest_json_null.
Qed.

(** A sender that is truthy and is not a string (a number, [true], a
    list, an object) is answered 500, not 400: the e-mail predicate calls
    [trim] on it, which is a [TypeError]. *)
Theorem POST_sender_not_a_string env sendMail req fields attachments :
  parseRequest req = inr (fields, attachments) →
  truthyValue (Some (from fields)) = true →
  (∀ s, from fields ≠ JString s) →
  POST env sendMail req = typeErrorAnswer (NotAFunction "email.trim").
Proof.
  intros Hp Ht Hs. rewrite POST_steps, Hp. unfold fromRejected. rewrite Ht.
  cbn [negb]. destruct (from fields) as [|b|n|s|vs|ms]; try done.
  by destruct (Hs s).
Qed.

(** Recipients that are one string and not a list are answered 500, not
    400, when the sender is valid: a string has a length and no
    [every]. *)
Theorem POST_recipients_text env sendMail req fields attachments
    (text : jsstring) :
  parseRequest req = inr (fields, attachments) →
  fromRejected fields = inr false →
  to fields = JString text → text ≠ [] →
  POST env sendMail req = typeErrorAnswer (NotAFunction "to.every").
Proof.
  intros Hp Hf Ht Hne. rewrite POST_steps, Hp, Hf. unfold toRejected.
  rewrite Ht. cbn [lengthTruthy everyOf]. by destruct text.
Qed.

End PostTheorems.
Section PostExamples.
Import Dispatcher.

Lemma POST_transport_failure_witness :
  (POST (H := examplePlatform) exampleEnv exampleBrokenTransport
        exampleMultipart).1
  = {| status := 500; body := ErrorBody (js "connect ECONNREFUSED") |}.
Proof.
  rewrite (POST_transport_failure exampleEnv exampleBrokenTransport
             exampleMultipart exampleFields exampleAttachments
             (ThrownError (js "connect ECONNREFUSED")));
    [reflexivity | vm_compute; reflexivity ..].
Defined.

Lemma POST_form_failure_witness :
  (POST (H := examplePlatform) exampleEnv exampleTransport
        {| header_content_type := Some (js "Multipart/Form-Data");
           formData := inl (ThrownError (js "Failed to parse body as FormData"));
           json := None |}).1
  = {| status := 500;
       body := ErrorBody (js "Failed to parse body as FormData") |}.
Proof.
  rewrite (POST_form_failure exampleEnv exampleTransport _
             (ThrownError (js "Failed to parse body as FormData")));
    [reflexivity | vm_compute; reflexivity ..].
Defined.

Lemma POST_not_configured_witness :
  POST (H := examplePlatform) (<["SMTP_PASS" := []]> exampleEnv)
       exampleTransport exampleMultipart
  = (errorResponse 500 "SMTP credentials are not configured on the server",
     [ConsoleLog (loggedConfig (<["SMTP_PASS" := []]> exampleEnv))]).
Proof.
  apply (POST_not_configured (<["SMTP_PASS" := []]> exampleEnv) exampleTransport
           exampleMultipart exampleFields exampleAttachments);
    [vm_compute; reflexivity .. |].
  right; right. vm_compute. reflexivity.
Defined.

Lemma POST_typed_validation_witness :
  POST (H := examplePlatform) exampleEnv exampleTransport
       (exampleJson (Some (JObject [(js "from", JString (js "not-an-email"));
                                    (js "to", JArray [JString (js "b@x.com")])])))
  = ({| status := 400;
        body := ErrorBody (js "Valid 'from' email is required") |}, []).
Proof.
  apply (POST_typed_validation exampleEnv exampleTransport _ []
           (js "not-an-email") [js "b@x.com"] [] []).
  - vm_compute. reflexivity.
  - right; left. vm_compute. reflexivity.
Defined.

Lemma POST_null_body_witness :
  POST (H := examplePlatform) exampleEnv exampleTransport
       (exampleJson (Some JNull))
  = typeErrorAnswer (ReadOfNull "from").
Proof.
  apply (POST_null_body exampleEnv exampleTransport (exampleJson (Some JNull)));
    vm_compute; reflexivity.
Defined.

Lemma POST_sender_not_a_string_witness :
  POST (H := examplePlatform) exampleEnv exampleTransport
       (exampleJson (H := examplePlatform)
          (Some (JObject [(js "from", JNumber (Some 123));
                          (js "to", JArray [JString (js "b@x.com")])])))
  = typeErrorAnswer (NotAFunction "email.trim").
Proof.
  apply (POST_sender_not_a_string exampleEnv exampleTransport _
           (@Build_ParsedEmailFields examplePlatform
              (JNumber (Some 123)) (JArray [JString (js "b@x.com")])
              (JString []) (JString [])) []).
  - vm_compute. reflexivity.
  - vm_compute. reflexivity.
  - intros s. simpl. discriminate.
Defined.

Lemma POST_recipients_text_witness :
  POST (H := examplePlatform) exampleEnv exampleTransport
       (exampleJson (Some (JObject [(js "from", JString (js "a@x.com"));
                                    (js "to", JString (js "a@x.com,b@x.com"))])))
  = typeErrorAnswer (NotAFunction "to.every").
Proof.
  apply (POST_recipients_text exampleEnv exampleTransport _
           {| from := JString (js "a@x.com");
              to := JString (js "a@x.com,b@x.com");
              subject := JString []; bodyHtml := JString [] |} []
           (js "a@x.com,b@x.com")).
  - vm_compute. reflexivity.
  - vm_compute. reflexivity.
  - reflexivity.
  - vm_compute. discriminate.
Defined.

End PostExamples.
(** ** The Composer and the Dispatcher together *)

Section RoundTrip.
Import Dispatcher.
Context `{Platform}.
Implicit Types (h : Composer.Home) (req : NextRequest) (env : Env)
  (sendMail : TransportOptions → MailOptions → Thrown + SentMessageInfo).

Lemma form_get_here k v (form : FormData) : form_get k ((k, v) :: form) = Some v.
Proof. unfold form_get, keyIs. simpl. by rewrite bool_decide_eq_true_2. Qed.

Lemma form_get_skip k k' v (form : FormData) :
  k' ≠ k → form_get k ((k', v) :: form) = form_get k form.
Proof.
  intros Hne. unfold form_get, keyIs. simpl. by rewrite bool_decide_eq_false_2.
Qed.

Lemma uploadedFiles_buildForm h :
  uploadedFiles (Composer.buildForm h) = default [] (Composer.files h).
Proof.
  rewrite buildForm_entries. unfold uploadedFiles, form_getAll.
  rewrite List.filter_app.
  replace (List.filter (keyIs (js "attachments")) [_; _; _; _])
    with (@nil (jsstring * FormDataEntryValue)) by reflexivity.
  rewrite app_nil_l. induction (default [] (Composer.files h)) as [|f fs IH];
    [done|].
  simpl. by f_equal.
Qed.

Lemma parseRequest_buildForm h req :
  Composer.canSubmit h = true →
  isMultipart req = true → formData req = inr (Composer.buildForm h) →
  parseRequest req =
  inr (typedFields (Composer.from h) (trim <$> Composer.to h)
         (Composer.subject h) (Composer.bodyHtml h),
       attachmentOfFile <$> default [] (Composer.files h)).
Proof.
  intros (Hfrom & Hne & Hto & Hsub)%canSubmit_iff Hm Hf.
  rewrite (parseRequest_multipart req _ Hm Hf), uploadedFiles_buildForm.
  rewrite buildForm_entries. cbn [app].
  assert (Hkey : ∀ k k' : string,
            bool_decide (js k' = js k) = false → js k' ≠ js k).
  { intros k k'. apply bool_decide_eq_false. }
  rewrite form_get_here.
  rewrite (form_get_skip (js "to")), form_get_here by by apply Hkey.
  rewrite !(form_get_skip (js "subject")), form_get_here by by apply Hkey.
  rewrite !(form_get_skip (js "bodyHtml")), form_get_here by by apply Hkey.
  cbn [stringOrEmpty toCommaOrArray]. rewrite !truthy_or_empty.
  by rewrite parseCommaOrArray_string, piecesOf_join_valid.
Qed.

Lemma isValidEmail_trim_all (l : list jsstring) :
  Forall (λ p, isValidEmail p = true) l →
  forallb isValidEmail (trim <$> l) = true.
Proof.
  intros Hl. apply forallb_Forall, Forall_fmap.
  eapply Forall_impl; [exact Hl|]. intros p Hp. simpl.
  by rewrite <- isValidEmail_trim_eq.
Qed.

(** The request that [onSubmit] issues, received as a multipart request,
    is parsed into the sender, the subject and the body as they were
    typed, the recipients trimmed, and one attachment for each chosen
    file with its name and bytes. *)
Theorem dispatcher_parses_submission fetch h r req :
  (Composer.onSubmit fetch h).2 = [r] →
  isMultipart req = true → formData req = inr (Composer.body r) →
  parseRequest req =
  inr ({| from := JString (Composer.from h);
          to := JArray (JString <$> (trim <$> Composer.to h));
          subject := JString (Composer.subject h);
          bodyHtml := JString (Composer.bodyHtml h) |},
       attachmentOfFile <$> default [] (Composer.files h)).
Proof.
  rewrite onSubmit_requests. destruct (Composer.canSubmit h) eqn:Hcan; [|done].
  intros [= <-] Hm Hf. by apply parseRequest_buildForm.
Qed.

(** The Dispatcher never answers 400 to a request that [onSubmit]
    issued, and with the credentials set it hands the transport a mail
    with the sender, subject, body and files of the form and with the
    trimmed recipients joined by commas. *)
Theorem submission_passes_validation fetch h r req env sendMail :
  (Composer.onSubmit fetch h).2 = [r] →
  isMultipart req = true → formData req = inr (Composer.body r) →
  status (POST env sendMail req).1 ≠ 400 ∧
  (configured env = true →
   SendMail (transportOptions env)
     {| mail_from := JString (Composer.from h);
        mail_to := join (js ",") (trim <$> Composer.to h);
        mail_subject := JString (Composer.subject h);
        mail_html := JString (Composer.bodyHtml h);
        mail_attachments :=
          attachmentOfFile <$> default [] (Composer.files h) |}
   ∈ (POST env sendMail req).2).
Proof.
  rewrite onSubmit_requests. destruct (Composer.canSubmit h) eqn:Hcan; [|done].
  intros [= <-] Hm Hf.
  pose proof (parseRequest_buildForm h req Hcan Hm Hf) as Hp.
  apply canSubmit_iff in Hcan as (Hfrom & Hne & Hto & _).
  rewrite POST_steps, Hp, fromRejected_typed, toRejected_typed.
  rewrite Hfrom, (isValidEmail_truthy _ Hfrom). cbn [andb negb].
  rewrite isValidEmail_trim_all by done. rewrite length_fmap.
  assert ((0 <? length (Composer.to h))%nat = true) as ->
    by by destruct (Composer.to h).
  cbn [andb negb].
  assert (Hmail : mailOptions
            (typedFields (Composer.from h) (trim <$> Composer.to h)
               (Composer.subject h) (Composer.bodyHtml h))
            (attachmentOfFile <$> default [] (Composer.files h))
          = {| mail_from := JString (Composer.from h);
               mail_to := join (js ",") (trim <$> Composer.to h);
               mail_subject := JString (Composer.subject h);
               mail_html := JString (Composer.bodyHtml h);
               mail_attachments :=
                 attachmentOfFile <$> default [] (Composer.files h) |}).
  { unfold mailOptions, typedFields. cbn [from to subject bodyHtml].
    rewrite joinRecipients_strings. f_equal.
    by destruct (Composer.bodyHtml h). }
  rewrite Hmail. destruct (configured env); cbn [negb].
  - split.
    + by destruct (sendMail _ _).
    + intros _. destruct (sendMail _ _); cbn [snd];
        rewrite ?elem_of_app, !elem_of_cons; auto.
  - split; [done | by intros ?].
Qed.

End RoundTrip.

Section RoundTripExamples.
Import Dispatcher.

Lemma dispatcher_parses_submission_witness :
  parseRequest (H := examplePlatform) exampleMultipart
  = inr (exampleFields, exampleAttachments).
Proof.
  apply (dispatcher_parses_submission exampleRefusal exampleHome
           {| Composer.url := js "/api/send-email"; Composer.method := js "POST";
              Composer.body := Composer.buildForm exampleHome |}
           exampleMultipart); vm_compute; reflexivity.
Defined.

Lemma submission_passes_validation_witness :
  status (POST (H := examplePlatform) exampleEnv exampleTransport
               exampleMultipart).1 ≠ 400.
Proof.
  apply (submission_passes_validation exampleRefusal exampleHome
           {| Composer.url := js "/api/send-email"; Composer.method := js "POST";
              Composer.body := Composer.buildForm exampleHome |}
           exampleMultipart exampleEnv exampleTransport);
    vm_compute; reflexivity.
Defined.

End RoundTripExamples.
(** ** The properties of the specification: the e-mail predicate and the
    Composer *)

Section ComposerClaims.
Import Composer.

(** C1, as the code has it: [isValidEmail] accepts [s] if and only if
    [s] with the white space around it removed matches
    [local@domain.tld], where the local part is one or more
    dot-separated runs of characters from [[A-Za-z0-9_'^&+-]] and the
    domain is one or more dot-separated labels followed by a final label
    of at least two letters; it accepts ["a.b+c@sub.example.co"] and
    rejects ["a@b"] and ["a@@b.com"]. *)
Theorem C1_isValidEmail_trimmed_grammar :
  (∀ s, isValidEmail s = true ↔ specAddress (trim s)) ∧
  isValidEmail (js "a.b+c@sub.example.co") = true ∧
  isValidEmail (js "a@b") = false ∧
  isValidEmail (js "a@@b.com") = false.
Proof.
  split; [|by vm_compute].
  intros s. unfold isValidEmail. apply test_emailPattern.
Qed.

(** C1, as it is worded, fails on an address with a leading space: the
    predicate accepts [" a@b.co"], which does not match the grammar. *)
Lemma C1_leading_space_accepted :
  ¬ (isValidEmail (js " a@b.co") = true ↔ specAddress (js " a@b.co")).
Proof.
  intros [Haccepted _].
  assert (Hs : specAddress (js " a@b.co")) by by apply Haccepted.
  apply test_emailPattern in Hs. by vm_compute in Hs.
Qed.

(** C10: for every string [s], [isValidEmail s] equals
    [isValidEmail (trim s)]: the predicate does not see the white space
    around an address. *)
Theorem C10_isValidEmail_trim_invariant s :
  isValidEmail s = isValidEmail (trim s).
Proof. apply isValidEmail_trim_eq. Qed.

(** C6: submission is enabled ([canSubmit]) if and only if [from] passes
    the e-mail predicate, [to] is not empty and each of its entries
    passes the predicate, and [subject] is not blank after trimming;
    when [canSubmit] is false, [onSubmit] changes nothing and issues no
    request. *)
Theorem C6_canSubmit fetch h :
  (canSubmit h = true ↔
   isValidEmail (from h) = true ∧ to h ≠ [] ∧
   Forall (λ p, isValidEmail p = true) (to h) ∧ trim (subject h) ≠ []) ∧
  (canSubmit h = false → onSubmit fetch h = (h, [])).
Proof.
  split; [apply canSubmit_iff|].
  intros Hcan. unfold onSubmit, onSubmit_start. by rewrite Hcan.
Qed.

Lemma C6_canSubmit_witness :
  onSubmit exampleRefusal
    {| from := js "me@example.com"; to := []; subject := js "Referral";
       isSending := false; status := None; bodyHtml := [];
       files := None |}
  = ({| from := js "me@example.com"; to := []; subject := js "Referral";
        isSending := false; status := None; bodyHtml := [];
        files := None |}, []).
Proof.
  apply (C6_canSubmit exampleRefusal
           {| from := js "me@example.com"; to := []; subject := js "Referral";
              isSending := false; status := None; bodyHtml := [];
              files := None |}).
  vm_compute. reflexivity.
Defined.

(** C7: a commit splits the input on commas, trims the pieces and drops
    the empty ones, and appends to the list, in order, the first
    occurrence of each piece that passes the e-mail predicate and is not
    yet in the list; committing ["x@y.com, bad, z@y.com"] to the empty
    list gives [["x@y.com"; "z@y.com"]]. *)
Theorem C7_add_commits (t : TagInput) :
  values (add t)
  = values t
    ++ List.filter (λ p, isValidEmail p && negb (bool_decide (p ∈ values t)))
         (nub (List.filter truthy (trim <$> split (ch ",") (input t)))) ∧
  values (add {| values := []; input := js "x@y.com, bad, z@y.com" |})
  = [js "x@y.com"; js "z@y.com"].
Proof. split; [apply add_values | by vm_compute]. Qed.

End ComposerClaims.
(** ** The properties of the specification: the Dispatcher *)

Section DispatcherClaims.
Import Dispatcher.
Context `{Platform}.
Implicit Types (req : NextRequest) (env : Env) (fields : ParsedEmailFields)
  (attachments : list Attachment)
  (sendMail : TransportOptions → MailOptions → Thrown + SentMessageInfo).

Lemma toLowerCase_literal (text : string) :
  isAscii (js text) → toLowerCase (js text) = lowerAscii <$> js text.
Proof. apply toLowerCase_ascii. Qed.

Lemma isMultipart_ascii req :
  isAscii (orEmpty (header_content_type req)) →
  isMultipart req
  = includes (lowerAscii <$> orEmpty (header_content_type req))
             (js "multipart/form-data").
Proof. intros Hascii. unfold isMultipart. by rewrite toLowerCase_ascii. Qed.

Lemma isAscii_decide (s : jsstring) :
  forallb (λ c, c <? 128) s = true → isAscii s.
Proof.
  rewrite forallb_Forall. intros Hs. eapply Forall_impl; [exact Hs|].
  intros c. apply N.ltb_lt.
Qed.

Lemma exampleJson_not_multipart body : isMultipart (exampleJson body) = false.
Proof. by rewrite isMultipart_ascii by by apply isAscii_decide. Qed.

Lemma parseRequest_exampleJson body :
  parseRequest (exampleJson (Some body))
  = match getMember "from" body with
    | inl err => inl err
    | inr json_from =>
    match getMember "to" body with
    | inl err => inl err
    | inr json_to =>
    match getMember "subject" body with
    | inl err => inl err
    | inr json_subject =>
    match getMember "bodyHtml" body with
    | inl err => inl err
    | inr json_bodyHtml =>
        match getMember "attachments" body with
        | inl err => inl err
        | inr json_attachments =>
            match orElse json_attachments (JArray []) with
            | JArray items =>
                match mapThrowing attachmentOfJson items with
                | inl err => inl err
                | inr attachments =>
                    inr ({| from := orElse json_from (JString []);
                            to := orElse json_to (JArray []);
                            subject := orElse json_subject (JString []);
                            bodyHtml := orElse json_bodyHtml (JString []) |},
                         attachments)
                end
            | JNull => inl (typeError (ReadOfNull "map"))
            | _ => inl (typeError (NotAFunction "(json.attachments || []).map"))
            end
        end
    end end end end.
Proof. unfold parseRequest. by rewrite exampleJson_not_multipart. Qed.

(** C2 fails on the code: a JSON body whose [to] is the list
    [["b@x.com"; " "]] keeps the blank entry, and the request is refused
    with the 400 of [to], whereas the normalisation of the same list
    ([parseCommaOrArray], which the multipart path applies) gives
    [["b@x.com"]]. *)
Theorem C2_json_to_not_normalised env sendMail :
  parseCommaOrArray
    (ValueArray [ItemString (js "b@x.com"); ItemString (js " ")])
  = [js "b@x.com"] ∧
  parseRequest (exampleJson (Some exampleJsonBody))
  = inr ({| from := JString (js "a@x.com");
            to := JArray [JString (js "b@x.com"); JString (js " ")];
            subject := JString (js "Referral"); bodyHtml := JString [] |},
         []) ∧
  POST env sendMail (exampleJson (Some exampleJsonBody))
  = (errorResponse 400 "Provide at least one valid 'to' email", []).
Proof.
  assert (Hparse : parseRequest (exampleJson (Some exampleJsonBody))
    = inr ({| from := JString (js "a@x.com");
              to := JArray [JString (js "b@x.com"); JString (js " ")];
              subject := JString (js "Referral"); bodyHtml := JString [] |},
           [])).
  { by rewrite parseRequest_exampleJson. }
  split_and!; [by vm_compute | done |].
  by rewrite POST_steps, Hparse.
Qed.

(** C3 fails on the code: the JSON branch hands on what the body holds
    without looking at its type, and the checks of [POST] throw on a
    value that is not a string.  A list of recipients with a [null] in
    it, and a sender that is a list, are both answered 500 with the
    message of the [TypeError], which is printed; neither gets the 400
    that names the field. *)
Theorem C3_ill_typed_fields_answer_500 env sendMail :
  POST env sendMail (exampleJson (Some exampleNullRecipient))
  = ({| status := 500;
        body := ErrorBody (typeErrorMessage (ReadOfNull "trim")) |},
     [ConsoleError (typeError (ReadOfNull "trim"))]) ∧
  POST env sendMail (exampleJson (Some exampleListSender))
  = ({| status := 500;
        body := ErrorBody (typeErrorMessage (NotAFunction "email.trim")) |},
     [ConsoleError (typeError (NotAFunction "email.trim"))]).
Proof.
  split; rewrite POST_steps, parseRequest_exampleJson; reflexivity.
Qed.

(** C4: when [from] and [to] are valid and one of [SMTP_HOST],
    [SMTP_USER], [SMTP_PASS] is missing, [POST] answers 500 with the
    configuration error; it has printed the configuration and has
    neither made a transport nor sent a mail. *)
Theorem C4_missing_credentials env sendMail req fields attachments
    (f : jsstring) (l : list jsstring) :
  parseRequest req = inr (fields, attachments) →
  from fields = JString f → f ≠ [] → isValidEmail f = true →
  to fields = JArray (JString <$> l) → l ≠ [] →
  Forall (λ p, isValidEmail p = true) l →
  env !! "SMTP_HOST" = None ∨ env !! "SMTP_USER" = None
  ∨ env !! "SMTP_PASS" = None →
  POST env sendMail req =
  ({| status := 500;
      body := ErrorBody
                (js "SMTP credentials are not configured on the server") |},
   [ConsoleLog (loggedConfig env)]).
Proof.
  intros Hp Hfrom Hf1 Hf2 Hto Ht1 Ht2 Hmissing. rewrite POST_steps, Hp.
  assert (fromRejected fields = inr false) as ->.
  { unfold fromRejected. rewrite Hfrom. cbn [truthyValue isValidEmailOf].
    rewrite Hf2. by destruct f. }
  assert (toRejected fields = inr false) as ->.
  { unfold toRejected. rewrite Hto. cbn [lengthTruthy everyOf].
    rewrite length_fmap, everyValid_strings.
    apply forallb_Forall in Ht2 as ->. by destruct l. }
  assert (configured env = false) as ->; [|done].
  unfold configured.
  destruct Hmissing as [-> | [-> | ->]]; by rewrite ?andb_false_r.
Qed.


(** C8: the port of the configuration is 587 when [SMTP_PORT] is unset,
    [secure] is false when [SMTP_SECURE] is unset, and when it is set
    [secure] is true exactly when its value, lower-cased, is
    ["true"]. *)
Theorem C8_smtp_defaults env :
  (env !! "SMTP_PORT" = None → smtpPort env = number_of_N 587) ∧
  (env !! "SMTP_SECURE" = None → smtpSecure env = false) ∧
  (∀ v, env !! "SMTP_SECURE" = Some v →
        (smtpSecure env = true ↔ toLowerCase v = js "true")).
Proof.
  assert (Hfalse : toLowerCase (js "false") ≠ js "true").
  { by rewrite toLowerCase_literal by by apply isAscii_decide. }
  unfold smtpPort, smtpSecure. split_and!.
  - by intros ->.
  - intros ->. by apply bool_decide_eq_false.
  - intros v ->. destruct v as [|c v]; cbn [truthy].
    + rewrite (toLowerCase_ascii []) by constructor.
      split; [by intros ?%bool_decide_eq_true | done].
    + apply bool_decide_eq_true.
Qed.

(** C9: a request that is not multipart and whose body does not parse as
    JSON is read as the empty body, with no field and no attachment, and
    is answered with the 400 of [from]; nothing else happens. *)
Theorem C9_unparsable_json env sendMail req :
  isMultipart req = false → json req = None →
  parseRequest req =
    inr ({| from := JString []; to := JArray []; subject := JString [];
            bodyHtml := JString [] |}, []) ∧
  POST env sendMail req =
    ({| status := 400;
        body := ErrorBody (js "Valid 'from' email is required") |}, []).
Proof.
  intros Hm Hj.
  assert (Hp : parseRequest req =
    inr ({| from := JString []; to := JArray []; subject := JString [];
            bodyHtml := JString [] |}, [])).
  { unfold parseRequest. by rewrite Hm, Hj. }
  split; [done|]. by rewrite POST_steps, Hp.
Qed.

(** [SMTP_SECURE] is read without regard to the case of its letters, and
    a port set to the empty string is the default port. *)
Theorem smtp_settings_read env v :
  (env !! "SMTP_SECURE" = Some v → isAscii v →
   (smtpSecure env = true ↔ lowerAscii <$> v = js "true")) ∧
  (env !! "SMTP_PORT" = Some [] → smtpPort env = number_of_N 587).
Proof.
  unfold smtpPort, smtpSecure. split.
  - intros -> Hv. destruct v as [|c v]; cbn [truthy].
    + split; [|done]. intros Ht%bool_decide_eq_true.
      by rewrite toLowerCase_literal in Ht by by apply isAscii_decide.
    + rewrite toLowerCase_ascii by done. apply bool_decide_eq_true.
  - by intros ->.
Qed.

End DispatcherClaims.

Section DispatcherClaimExamples.
Import Dispatcher.

Lemma C4_missing_credentials_witness :
  POST (H := examplePlatform) (delete "SMTP_HOST" exampleEnv) exampleTransport
       exampleMultipart
  = ({| status := 500;
        body := ErrorBody
                  (js "SMTP credentials are not configured on the server") |},
     [ConsoleLog (loggedConfig (delete "SMTP_HOST" exampleEnv))]).
Proof.
  apply (C4_missing_credentials (delete "SMTP_HOST" exampleEnv) exampleTransport
           exampleMultipart exampleFields exampleAttachments
           (js "me@example.com") [js "x@y.com"; js "z@y.com"]).
  - vm_compute. reflexivity.
  - reflexivity.
  - vm_compute. discriminate.
  - vm_compute. reflexivity.
  - reflexivity.
  - discriminate.
  - repeat constructor.
  - left. vm_compute. reflexivity.
Defined.


Lemma C8_smtp_defaults_witness :
  smtpPort (H := examplePlatform) exampleEnv = Some 587 ∧
  smtpSecure (H := examplePlatform) exampleEnv = false ∧
  smtpSecure (H := examplePlatform) (<["SMTP_SECURE" := js "True"]> exampleEnv)
  = true.
Proof.
  split_and!.
  - apply (C8_smtp_defaults (H := examplePlatform) exampleEnv).
    vm_compute. reflexivity.
  - apply (C8_smtp_defaults (H := examplePlatform) exampleEnv).
    vm_compute. reflexivity.
  - destruct (C8_smtp_defaults (H := examplePlatform)
                (<["SMTP_SECURE" := js "True"]> exampleEnv)) as (_ & _ & Hset).
    apply (Hset (js "True")); vm_compute; reflexivity.
Defined.

Lemma C9_unparsable_json_witness :
  POST (H := examplePlatform) exampleEnv exampleTransport (exampleJson None)
  = ({| status := 400;
        body := ErrorBody (js "Valid 'from' email is required") |}, []).
Proof.
  apply (C9_unparsable_json exampleEnv exampleTransport (exampleJson None)).
  - vm_compute. reflexivity.
  - reflexivity.
Defined.

Lemma smtp_settings_read_witness :
  smtpSecure (H := examplePlatform) (<["SMTP_SECURE" := js "TRUE"]> exampleEnv)
  = true.
Proof.
  apply (smtp_settings_read (H := examplePlatform)
           (<["SMTP_SECURE" := js "TRUE"]> exampleEnv) (js "TRUE")).
  - vm_compute. reflexivity.
  - apply isAscii_decide. vm_compute. reflexivity.
  - vm_compute. reflexivity.
Defined.

End DispatcherClaimExamples.
(** ** The e-mail predicate: what an accepted string looks like *)

Section EmailTheorems.
Implicit Types (s w : jsstring) (c : N).

Lemma elem_of_join c (sep : jsstring) (parts : list jsstring) :
  c ∈ join sep parts → c ∈ sep ∨ ∃ p, p ∈ parts ∧ c ∈ p.
Proof.
  induction parts as [|p [|q ps] IH].
  - by intros ?%elem_of_nil.
  - intros Hc. right. exists p. split; [left | done].
  - change (join sep (p :: q :: ps)) with (p ++ sep ++ join sep (q :: ps)).
    rewrite !elem_of_app. intros [Hc|[Hc|Hc]].
    + right. exists p. split; [left | done].
    + by left.
    + destruct (IH Hc) as [?|(p' & Hp' & Hcp')]; [by left|].
      right. exists p'. split; [by right | done].
Qed.

Lemma join_nonempty (sep : jsstring) (parts : list jsstring) (P : N → bool) :
  parts ≠ [] → Forall (run P) parts → join sep parts ≠ [].
Proof.
  intros Hne Hparts. destruct Hparts as [|p ps [Hp _] _]; [done|].
  destruct ps; simpl; [done|]. by destruct p.
Qed.

(** A string that the predicate accepts is, once trimmed, a non-empty
    local part, one at sign and a domain with a dot in it; there is no
    other at sign, and every character is a letter, a digit, a dot, the
    at sign or one of [_'^&+-]. *)
Theorem isValidEmail_shape s :
  isValidEmail s = true →
  Forall (λ c, addressChar c = true) (trim s) ∧
  ∃ local domain,
    trim s = local ++ js "@" ++ domain ∧ local ≠ [] ∧
    (ch "@" ∉ local) ∧ (ch "@" ∉ domain) ∧ ch "." ∈ domain.
Proof.
  unfold isValidEmail. intros Hs. split; [by apply test_emailPattern_chars|].
  apply test_emailPattern in Hs
    as (runs & labels & tld & Hr & Hruns & Hl & Hlabels & _ & Htld & ->).
  exists (join (js ".") runs), (join (js ".") labels ++ js "." ++ tld).
  split_and!; [done | by eapply join_nonempty | | |].
  - intros [Hc|(p & Hp & Hc)]%elem_of_join.
    + apply (bool_decide_pack _) in Hc. by vm_compute in Hc.
    + rewrite Forall_forall in Hruns. destruct (Hruns p Hp) as [_ Hchars].
      rewrite Forall_forall in Hchars. by apply Hchars in Hc.
  - rewrite !elem_of_app. intros [[Hc|(p & Hp & Hc)]%elem_of_join|[Hc|Hc]].
    + apply (bool_decide_pack _) in Hc. by vm_compute in Hc.
    + rewrite Forall_forall in Hlabels. destruct (Hlabels p Hp) as [_ Hchars].
      rewrite Forall_forall in Hchars. by apply Hchars in Hc.
    + apply (bool_decide_pack _) in Hc. by vm_compute in Hc.
    + rewrite Forall_forall in Htld. by apply Htld in Hc.
  - rewrite !elem_of_app. right; left. by apply (bool_decide_unpack _).
Qed.

Lemma isValidEmail_shape_witness :
  Forall (λ c, addressChar c = true) (trim (js " x@y.com ")) ∧
  ∃ local domain,
    trim (js " x@y.com ") = local ++ js "@" ++ domain ∧ local ≠ [] ∧
    (ch "@" ∉ local) ∧ (ch "@" ∉ domain) ∧ ch "." ∈ domain.
Proof. apply (isValidEmail_shape (js " x@y.com ")). vm_compute. reflexivity. Defined.

(** White space around an address does not matter: an address that
    matches the pattern is accepted with any blank strings around it. *)
Theorem isValidEmail_padded w1 s w2 :
  blank w1 → blank w2 → test emailPattern s = true →
  isValidEmail (w1 ++ s ++ w2) = true.
Proof.
  intros Hw1 Hw2 Hs. unfold isValidEmail.
  rewrite trim_surrounded; [done..| |].
  - pose proof (test_emailPattern_no_space s Hs) as Hns. by destruct Hns.
  - pose proof (test_emailPattern_no_space s Hs) as Hns.
    unfold noTrail. apply Forall_reverse in Hns. by destruct Hns.
Qed.

Lemma isValidEmail_padded_witness :
  isValidEmail ([0x20; 0x09] ++ js "a@b.co" ++ [0x0A]) = true.
Proof.
  apply (isValidEmail_padded [0x20; 0x09] (js "a@b.co") [0x0A]).
  - repeat constructor.
  - repeat constructor.
  - vm_compute. reflexivity.
Defined.

End EmailTheorems.

(** ** The Composer on the examples *)

Section ComposerExamples.
Import Composer.

Lemma add_keeps_valid_witness :
  showsInvalidWarning (add exampleTagInput) = false.
Proof. apply (add_keeps_valid exampleTagInput). vm_compute. reflexivity. Defined.

Lemma add_keeps_NoDup_witness : NoDup (values (add exampleTagInput)).
Proof.
  apply (add_keeps_NoDup exampleTagInput).
  apply (bool_decide_unpack _). vm_compute. exact I.
Defined.

Lemma add_appends_addresses_witness :
  test emailPattern (js "x@y.com") = true.
Proof.
  apply (add_appends_addresses exampleTagInput (js "x@y.com")).
  - apply (bool_decide_unpack _). vm_compute. exact I.
  - apply (bool_decide_unpack _). vm_compute. exact I.
Defined.

Lemma submitDisabled_spec_witness :
  submitDisabled exampleHome = false ∧
  ∀ h1 req, onSubmit_start exampleHome = Some (h1, req) →
            submitDisabled h1 = true.
Proof.
  destruct (submitDisabled_spec exampleHome) as [Henabled Hsending].
  split; [|exact Hsending]. apply Henabled. vm_compute. by split.
Defined.

End ComposerExamples.
